(** * DataTable: sort, selection and cell rendering logic

    A shallow embedding of the logic of the [DataTable] React component
    (components/DataTable/DataTable.tsx): the comparator [compareValues],
    the derived view [sortedData], the event handlers [handleSort],
    [handleRowSelect] and [handleSelectAll], the tri-state summary
    [selectAllState] and the cell dispatch [renderCell].

    React state ([useState]) is modelled by explicit state passing: a
    handler takes the state of the render it was created in and returns the
    next state together with the list of callback invocations it made.

    The development also covers what the table renders and the events it
    receives, the theme toggle (components/ThemeToggle/ThemeToggle.tsx)
    and the derived values of the input field
    (components/InputField/InputField.tsx). *)

From Stdlib Require Import Floats List String Ascii Bool Arith ZArith Lia.
From Stdlib Require Import DecimalString.
From Stdlib Require Import Permutation Sorted.
Import ListNotations.

Set Implicit Arguments.
Open Scope string_scope.
Open Scope list_scope.

(* ================================================================== *)
(** ** The JavaScript values the component handles *)

Module JS.

(** A cell value has the TypeScript type [unknown].  Numbers are IEEE
    binary64 ([PrimFloat]).  Objects carry an identity, since [===]
    compares them by reference; a [Date] carries its time value
    ([getTime()], [nan] for an invalid date), any other object the result
    of converting it to a string. *)
Inductive value : Type :=
| VUndefined
| VNull
| VBool (b : bool)
| VNumber (n : float)
| VString (s : string)
| VDate (id : nat) (time : float)
| VOther (id : nat) (repr : string).

(** The builtins of the host whose result is fixed by the engine and the
    locale, not by this program. *)
Class Host : Type := {
  (** [String.prototype.localeCompare] *)
  localeCompare : string -> string -> float;
  (** [Number::toString] *)
  numberToString : float -> string;
  (** [Date.prototype.toString], from the time value *)
  dateToString : float -> string;
  (** [Array.prototype.sort] with a comparator, on a copy of the array *)
  Array_sort : forall A : Type, (A -> A -> float) -> list A -> list A
}.

(** [a === b] *)
Definition strict_eq (a b : value) : bool :=
  match a, b with
  | VUndefined, VUndefined => true
  | VNull, VNull => true
  | VBool p, VBool q => Bool.eqb p q
  | VNumber x, VNumber y => PrimFloat.eqb x y
  | VString s, VString t => String.eqb s t
  | VDate i _, VDate j _ => Nat.eqb i j
  | VOther i _, VOther j _ => Nat.eqb i j
  | _, _ => false
  end.

(** [a == null] *)
Definition is_nullish (a : value) : bool :=
  match a with
  | VUndefined | VNull => true
  | _ => false
  end.

(** [Number(b)] for a boolean [b] *)
Definition Number_of_bool (b : bool) : float :=
  if b then 1%float else 0%float.

(** [String(a)] *)
Definition ToString `{Host} (a : value) : string :=
  match a with
  | VUndefined => "undefined"
  | VNull => "null"
  | VBool true => "true"
  | VBool false => "false"
  | VNumber n => numberToString n
  | VString s => s
  | VDate _ t => dateToString t
  | VOther _ s => s
  end.

(** [a ?? b] *)
Definition nullish_coalesce (a b : value) : value :=
  if is_nullish a then b else a.

(** *** [Set<number>]

    A JavaScript [Set] iterates in insertion order, so it is a list without
    repetition; [size] is its length. *)
Definition NumSet : Type := list nat.

Definition set_has (i : nat) (s : NumSet) : bool := existsb (Nat.eqb i) s.

Definition set_add (i : nat) (s : NumSet) : NumSet :=
  if set_has i s then s else s ++ [i].

Definition set_delete (i : nat) (s : NumSet) : NumSet :=
  filter (fun j => negb (Nat.eqb i j)) s.

Definition set_size (s : NumSet) : nat := List.length s.

(** *** [Array.prototype.sort]

    The comparator returns a number [v]; the sort reads only its sign:
    [v < 0], [v > 0], and everything else ([0], [-0], [NaN]) as a tie. *)
Definition sign_of (v : float) : comparison :=
  if (v <? 0)%float then Lt
  else if (0 <? v)%float then Gt
  else Eq.

(** The comparator as the sort reads it. *)
Definition order_of (A : Type) (comparefn : A -> A -> float) (a b : A)
    : comparison :=
  sign_of (comparefn a b).

(** *** Consistent comparators

    ECMAScript promises a sorted result only when the comparator is
    consistent on the elements sorted: it never returns [NaN], swapping the
    arguments swaps the answer, and "not after" is transitive. *)
Section Consistency.
Variable A : Type.
Variable c : A -> A -> comparison.

Definition consistent (l : list A) : Prop :=
  (forall a b, In a l -> In b l -> c b a = CompOpp (c a b))
  /\ (forall a b x, In a l -> In b l -> In x l ->
        c a b <> Gt -> c b x <> Gt -> c a x <> Gt).

Definition comparison_eqb (o o' : comparison) : bool :=
  match o, o' with
  | Lt, Lt | Eq, Eq | Gt, Gt => true
  | _, _ => false
  end.

Definition not_after (o : comparison) : bool :=
  match o with
  | Gt => false
  | _ => true
  end.

Definition is_before (o : comparison) : bool :=
  match o with
  | Lt => true
  | _ => false
  end.

(** The same, decided on a given list. *)
Definition consistentb (l : list A) : bool :=
  forallb (fun a =>
    forallb (fun b =>
      comparison_eqb (c b a) (CompOpp (c a b))
      && forallb (fun x =>
           implb (not_after (c a b) && not_after (c b x))
                 (not_after (c a x))) l) l) l.

(** How many elements of [l] come strictly before [a]. *)
Definition rank (l : list A) (a : A) : nat :=
  List.length (filter (fun b => is_before (c b a)) l).
End Consistency.

Definition consistent_comparator (A : Type) (comparefn : A -> A -> float)
    (l : list A) : Prop :=
  (forall a b, In a l -> In b l -> PrimFloat.is_nan (comparefn a b) = false)
  /\ consistent (order_of comparefn) l.

Definition consistent_comparatorb (A : Type) (comparefn : A -> A -> float)
    (l : list A) : bool :=
  forallb (fun a =>
    forallb (fun b => negb (PrimFloat.is_nan (comparefn a b))) l) l
  && consistentb (order_of comparefn) l.

(** What the language promises of [sort]: the result is a rearrangement of
    the input, and it is in order whenever the comparator is consistent on
    the elements.  For an inconsistent comparator the order is the
    engine's own choice. *)
Definition sort_conforms
    (sortfn : forall A : Type, (A -> A -> float) -> list A -> list A) : Prop :=
  forall (A : Type) (comparefn : A -> A -> float) (l : list A),
    Permutation (sortfn A comparefn l) l
    /\ (consistent_comparator comparefn l ->
        StronglySorted (fun a b => order_of comparefn a b <> Gt)
                       (sortfn A comparefn l)).

(** One conforming sort: the stable insertion sort. *)
Section InsertionSort.
Variable A : Type.
Variable comparefn : A -> A -> float.

Fixpoint insertion_insert (x : A) (l : list A) : list A :=
  match l with
  | [] => [x]
  | y :: l' =>
      match sign_of (comparefn x y) with
      | Gt => y :: insertion_insert x l'
      | _ => x :: l
      end
  end.

Fixpoint insertion_sort (l : list A) : list A :=
  match l with
  | [] => []
  | x :: l' => insertion_insert x (insertion_sort l')
  end.
End InsertionSort.

(** *** A host to run the definitions on

    [exampleHost] compares strings by code unit, prints a number as its
    exact decimal expansion (what JavaScript prints for integers and for
    short fractions such as 1.5), prints a date as its time value and
    sorts by insertion.  It is one possible host; the theorems below hold
    for every host. *)
Definition decimal_of_Z (z : Z) : string := NilZero.string_of_int (Z.to_int z).

Fixpoint frac_digits (fuel : nat) (r d : Z) : string :=
  match fuel with
  | O => ""
  | S fuel' =>
      if Z.eqb r 0 then ""
      else decimal_of_Z (r * 10 / d) ++ frac_digits fuel' ((r * 10) mod d) d
  end.

Definition decimal_of_dyadic (neg : bool) (m : positive) (e : Z) : string :=
  let sign := if neg then "-" else "" in
  if (0 <=? e)%Z then sign ++ decimal_of_Z (Z.pos m * 2 ^ e)
  else
    let d := (2 ^ (- e))%Z in
    let r := (Z.pos m mod d)%Z in
    sign ++ decimal_of_Z (Z.pos m / d)
      ++ (if Z.eqb r 0 then "" else "." ++ frac_digits (Z.to_nat (- e)) r d).

Definition example_numberToString (n : float) : string :=
  match Prim2SF n with
  | S754_nan => "NaN"
  | S754_infinity true => "-Infinity"
  | S754_infinity false => "Infinity"
  | S754_zero _ => "0"
  | S754_finite s m e => decimal_of_dyadic s m e
  end.

Definition example_localeCompare (s t : string) : float :=
  match String.compare s t with
  | Lt => (-1)%float
  | Eq => 0%float
  | Gt => 1%float
  end.

Definition exampleHost : Host := {|
  localeCompare := example_localeCompare;
  numberToString := example_numberToString;
  dateToString := fun t =>
    match Prim2SF t with
    | S754_nan => "Invalid Date"
    | _ => example_numberToString t
    end;
  Array_sort := insertion_sort
|}.

End JS.

(* ================================================================== *)
(** ** The theme toggle (components/ThemeToggle/ThemeToggle.tsx) *)

Module ThemeToggle.

(** [localStorage]: keys to values, a key at most once, in insertion
    order. *)
Definition Storage : Type := list (string * string).

Fixpoint getItem (store : Storage) (k : string) : option string :=
  match store with
  | [] => None
  | (k', v) :: rest => if String.eqb k' k then Some v else getItem rest k
  end.

Fixpoint setItem (store : Storage) (k v : string) : Storage :=
  match store with
  | [] => [(k, v)]
  | (k', v') :: rest =>
      if String.eqb k' k then (k, v) :: rest else (k', v') :: setItem rest k v
  end.

(** [classList] of an element: tokens without repetition. *)
Definition classList_add (classes : list string) (token : string) : list string :=
  if existsb (String.eqb token) classes then classes else classes ++ [token].

Definition classList_remove (classes : list string) (token : string)
    : list string :=
  filter (fun c => negb (String.eqb token c)) classes.

(** What the component reads and writes outside itself: whether there is
    a [window] at all, the storage, the answer of
    [matchMedia("(prefers-color-scheme: dark)").matches] and the classes of
    the document's root element. *)
Record Browser : Type := {
  hasWindow : bool;
  localStorage : Storage;
  prefersDark : bool;
  rootClasses : list string
}.

(** A string in a condition: the empty string is falsy. *)
Definition truthy (s : string) : bool := negb (String.eqb s "").

(** The initializer of [useState]. *)
Definition initialIsDark (b : Browser) : bool :=
  if hasWindow b then
    match getItem (localStorage b) "theme" with
    | Some savedTheme =>
        if truthy savedTheme then String.eqb savedTheme "dark"
        else prefersDark b
    | None => prefersDark b
    end
  else false.

(** The effect, run after mount and after every change of [isDark]. *)
Definition applyTheme (b : Browser) (isDark : bool) : Browser :=
  if isDark then
    {| hasWindow := hasWindow b;
       localStorage := setItem (localStorage b) "theme" "dark";
       prefersDark := prefersDark b;
       rootClasses := classList_add (rootClasses b) "dark" |}
  else
    {| hasWindow := hasWindow b;
       localStorage := setItem (localStorage b) "theme" "light";
       prefersDark := prefersDark b;
       rootClasses := classList_remove (rootClasses b) "dark" |}.

Definition toggleTheme (isDark : bool) : bool := negb isDark.

(** Mounting in a browser: the first render, then the effect. *)
Definition mount (b : Browser) : bool * Browser :=
  (initialIsDark b, applyTheme b (initialIsDark b)).

(** A click on the button: the state flips and the effect runs again. *)
Definition click (s : bool * Browser) : bool * Browser :=
  (toggleTheme (fst s), applyTheme (snd s) (toggleTheme (fst s))).

Definition ariaLabel (isDark : bool) : string :=
  if isDark then "Switch to light mode" else "Switch to dark mode".

Definition sampleBrowser : Browser :=
  {| hasWindow := true;
     localStorage := [("lang", "en"); ("theme", "light")];
     prefersDark := true;
     rootClasses := ["app"; "dark"; "wide"] |}.

End ThemeToggle.

(* ================================================================== *)
(** ** The input field (components/InputField/InputField.tsx) *)

Module InputField.

Inductive Variant : Type := filled | outlined | ghost.
Inductive Size : Type := sm | md | lg.
Inductive InputType : Type := text | password | email | number.

(** The props the logic reads, after the defaults of the destructuring.
    A callback or an icon is modelled by whether the caller supplied
    it. *)
Record Props : Type := {
  value : option string;
  onChange : bool;
  label : option string;
  helperText : option string;
  errorMessage : option string;
  disabled : bool;
  invalid : bool;
  loading : bool;
  variant : Variant;
  size : Size;
  type : InputType;
  showClearButton : bool;
  showPasswordToggle : bool;
  id : option string;
  onClear : bool;
  startIcon : bool;
  endIcon : bool;
  ariaDescribedBy : option string
}.

Definition defaultProps : Props :=
  {| value := None; onChange := false; label := None; helperText := None;
     errorMessage := None; disabled := false; invalid := false;
     loading := false; variant := outlined; size := md; type := text;
     showClearButton := false; showPasswordToggle := false; id := None;
     onClear := false; startIcon := false; endIcon := false;
     ariaDescribedBy := None |}.

(** An optional string in a condition: absent and empty are falsy. *)
Definition truthy (s : option string) : bool :=
  match s with
  | Some t => negb (String.eqb t "")
  | None => false
  end.

Definition is_password (t : InputType) : bool :=
  match t with
  | password => true
  | _ => false
  end.

Section Derived.
Variable props : Props.
(** The result of [useId]. *)
Variable generatedId : string.
(** The state cell [showPassword]. *)
Variable showPassword : bool.

(** [id || generatedId] *)
Definition inputId : string :=
  match id props with
  | Some given => if truthy (Some given) then given else generatedId
  | None => generatedId
  end.

Definition helperId : string := inputId ++ "-helper".
Definition errorId : string := inputId ++ "-error".

Definition isPassword : bool := is_password (type props).

Definition inputType : InputType :=
  if isPassword && showPassword then text else type props.

Definition hasError : bool := invalid props || truthy (errorMessage props).

Definition hasIcons : bool :=
  startIcon props || endIcon props || loading props
  || (showClearButton props && truthy (value props))
  || (isPassword && showPasswordToggle props).

(** The input's [aria-describedby]. *)
Definition describedBy : option string :=
  if truthy (ariaDescribedBy props) then ariaDescribedBy props
  else if truthy (helperText props) then Some helperId
  else if hasError then Some errorId
  else None.

(** The line under the input: its [id], its text, and whether it is
    styled as an error. *)
Record Message : Type := {
  messageId : string;
  messageText : option string;
  messageIsError : bool
}.

Definition message : option Message :=
  if truthy (helperText props) || truthy (errorMessage props) then
    Some {| messageId := if hasError then errorId else helperId;
            messageText := if hasError then errorMessage props
                           else helperText props;
            messageIsError := hasError |}
  else None.

(** What sits at the right end of the input. *)
Inductive EndControl : Type :=
| Spinner
| ClearButton (inert : bool)
| PasswordToggle (inert : bool) (buttonLabel : string)
| EndIcon.

Definition endContainerShown : bool :=
  loading props
  || (showClearButton props && truthy (value props))
  || (isPassword && showPasswordToggle props)
  || endIcon props.

Definition endControls : list EndControl :=
  (if loading props then [Spinner] else [])
  ++ (if negb (loading props) && showClearButton props && truthy (value props)
      then [ClearButton (disabled props)] else [])
  ++ (if negb (loading props) && isPassword && showPasswordToggle props
      then [PasswordToggle (disabled props)
              (if showPassword then "Hide password" else "Show password")]
      else [])
  ++ (if negb (loading props) && endIcon props then [EndIcon] else []).

(** The calls [handleClear] makes. *)
Inductive Call : Type :=
| CallOnClear
| CallOnChange (newValue : string).

Definition handleClear : list Call :=
  if onClear props then [CallOnClear]
  else if onChange props then [CallOnChange ""]
  else [].

Definition togglePasswordVisibility : bool := negb showPassword.

End Derived.

Definition sampleField : Props :=
  {| value := Some "secret"; onChange := true; label := Some "Password";
     helperText := Some "Must be at least 8 characters long";
     errorMessage := Some "Too short"; disabled := false; invalid := false;
     loading := false; variant := filled; size := md; type := password;
     showClearButton := true; showPasswordToggle := true; id := None;
     onClear := false; startIcon := false; endIcon := false;
     ariaDescribedBy := None |}.

End InputField.

(* ================================================================== *)
(** ** The component *)

Module DataTable.
Import JS.

(** [React.ReactNode], as far as the table is concerned: text, or an
    element built by a custom renderer. *)
#[warnings="-register-all"]
Inductive ReactNode : Type :=
| NodeText (s : string)
| NodeElement (tag : string) (children : list ReactNode).

(** A row is an object; [row[key]] of an absent property is [undefined]. *)
Definition Row : Type := list (string * value).

Fixpoint get (row : Row) (k : string) : value :=
  match row with
  | [] => VUndefined
  | (k', v) :: row' => if String.eqb k' k then v else get row' k
  end.

Inductive Direction : Type := asc | desc.

(** [type SortDirection = "asc" | "desc" | null] *)
Definition SortDirection : Type := option Direction.

Inductive Align : Type := AlignLeft | AlignCenter | AlignRight.

(** [interface Column<T>]; an optional field is an [option]. *)
Record Column : Type := {
  key : string;
  header : string;
  sortable : option bool;
  render : option (value -> Row -> ReactNode);
  width : option string;
  align : option Align
}.

(** The props that the logic reads.  A callback is modelled by whether the
    caller supplied it; each invocation is recorded as a [Notification]. *)
Record Props : Type := {
  data : list Row;
  columns : list Column;
  onRowSelect : bool;
  onSort : bool
}.

Inductive Notification : Type :=
| SortChanged (k : string) (d : Direction)
| SelectionChanged (rows : list (option Row)).

(** The three [useState] cells. *)
Record TableState : Type := {
  sortKey : option string;
  sortDirection : SortDirection;
  selectedRows : NumSet
}.

Definition initialState : TableState :=
  {| sortKey := None; sortDirection := None; selectedRows := [] |}.

(** Truthiness of [sortKey : keyof T | null]: [null] and the empty
    property name are falsy. *)
Definition key_truthy (k : option string) : bool :=
  match k with
  | None => false
  | Some s => negb (String.eqb s "")
  end.

(** Truthiness of an optional boolean ([column?.sortable]). *)
Definition flag_truthy (b : option bool) : bool :=
  match b with
  | Some true => true
  | _ => false
  end.

Section Component.
Context `{Host}.

Definition compareValues (a b : value) : float :=
  if strict_eq a b then 0%float
  else if is_nullish a then (-1)%float
  else if is_nullish b then 1%float
  else
    match a, b with
    | VNumber x, VNumber y => if (x <? y)%float then (-1)%float else 1%float
    | VString s, VString t => localeCompare s t
    | VDate _ ta, VDate _ tb => (ta - tb)%float
    | VBool p, VBool q => (Number_of_bool p - Number_of_bool q)%float
    | _, _ => localeCompare (ToString a) (ToString b)
    end.

(** The comparator handed to [sort] in [sortedData]. *)
Definition rowComparator (k : string) (d : Direction) (a b : Row) : float :=
  let cmp := compareValues (get a k) (get b k) in
  match d with
  | asc => cmp
  | desc => (- cmp)%float
  end.

(** [sortedData], as a function of what its [useMemo] depends on. *)
Definition sortedRows (rows : list Row) (k : option string)
    (d : SortDirection) : list Row :=
  match k, d with
  | Some key, Some dir =>
      if key_truthy k then Array_sort (rowComparator key dir) rows
      else rows
  | _, _ => rows
  end.

Definition sortedData (p : Props) (st : TableState) : list Row :=
  sortedRows (data p) (sortKey st) (sortDirection st).

Definition handleSort (p : Props) (st : TableState) (k : string)
    : TableState * list Notification :=
  match find (fun col => String.eqb (key col) k) (columns p) with
  | None => (st, [])
  | Some column =>
      if negb (flag_truthy (sortable column)) then (st, [])
      else
        let newDirection : SortDirection :=
          match sortKey st with
          | Some k' =>
              if String.eqb k' k then
                match sortDirection st with
                | Some asc => Some desc
                | Some desc => None
                | None => Some asc
                end
              else Some asc
          | None => Some asc
          end in
        ({| sortKey := match newDirection with
                       | Some _ => Some k
                       | None => None
                       end;
            sortDirection := newDirection;
            selectedRows := selectedRows st |},
         match newDirection with
         | Some d => if onSort p then [SortChanged k d] else []
         | None => []
         end)
  end.

(** The header cell's [onClick]: [column.sortable && handleSort(column.key)]. *)
Definition clickHeader (p : Props) (st : TableState) (column : Column)
    : TableState * list Notification :=
  if flag_truthy (sortable column) then handleSort p st (key column)
  else (st, []).

(** [Array.from(newSelectedRows).map((i) => sortedData[i])] *)
Definition materialize (view : list Row) (s : NumSet) : list (option Row) :=
  map (fun i => nth_error view i) s.

Definition handleRowSelect (p : Props) (st : TableState) (index : nat)
    (isSelected : bool) : TableState * list Notification :=
  let newSelectedRows :=
    if isSelected then set_add index (selectedRows st)
    else set_delete index (selectedRows st) in
  ({| sortKey := sortKey st;
      sortDirection := sortDirection st;
      selectedRows := newSelectedRows |},
   if onRowSelect p
   then [SelectionChanged (materialize (sortedData p st) newSelectedRows)]
   else []).

Definition handleSelectAll (p : Props) (st : TableState)
    : TableState * list Notification :=
  let view := sortedData p st in
  let isAllSelected := Nat.eqb (set_size (selectedRows st)) (List.length view) in
  let newSelectedRows :=
    if negb isAllSelected
    then fold_left (fun s index => set_add index s)
                   (seq 0 (List.length view)) []
    else [] in
  ({| sortKey := sortKey st;
      sortDirection := sortDirection st;
      selectedRows := newSelectedRows |},
   if onRowSelect p
   then [SelectionChanged (materialize view newSelectedRows)]
   else []).

Inductive SelectAllState : Type := SelNone | SelAll | SelPartial.

Definition selectAllState (p : Props) (st : TableState) : SelectAllState :=
  if Nat.eqb (set_size (selectedRows st)) 0 then SelNone
  else if Nat.eqb (set_size (selectedRows st)) (List.length (sortedData p st))
  then SelAll
  else SelPartial.

Definition renderCell (column : Column) (row : Row) : ReactNode :=
  let v := get row (key column) in
  match render column with
  | Some f => f v row
  | None => NodeText (ToString (nullish_coalesce v (VString "")))
  end.

End Component.

(** *** Sample data

    The two-row table of the specification's scenario, with a sortable
    [name] column and an [id] column that is not sortable. *)
Definition rowB : Row := [("id", VNumber 1); ("name", VString "B")].
Definition rowA : Row := [("id", VNumber 2); ("name", VString "A")].

Definition nameColumn : Column :=
  {| key := "name"; header := "Name"; sortable := Some true;
     render := None; width := None; align := None |}.

Definition idColumn : Column :=
  {| key := "id"; header := "ID"; sortable := None;
     render := None; width := None; align := Some AlignRight |}.

Definition sampleProps : Props :=
  {| data := [rowB; rowA]; columns := [nameColumn; idColumn];
     onRowSelect := true; onSort := true |}.

(** Rows whose only sortable property has the empty name. *)
Definition unnamedFirst : Row := [("", VNumber 1); ("label", VString "first")].
Definition unnamedSecond : Row := [("", VNumber 2); ("label", VString "second")].

(** A numeric column with a [NaN] in it. *)
Definition scoreRows : list Row :=
  [ [("label", VString "a"); ("score", VNumber 2)];
    [("label", VString "b"); ("score", VNumber 1)];
    [("label", VString "c"); ("score", VNumber nan)];
    [("label", VString "d"); ("score", VNumber 2)] ].

(** Two rows tie on key [k] when the comparator, as the sort reads it,
    puts neither before the other. *)
Definition tied `{Host} (k : string) (a b : Row) : Prop :=
  sign_of (compareValues (get a k) (get b k)) = Eq.

(** The state with the selection replaced, the sort cells kept. *)
Definition withSelection (st : TableState) (s : NumSet) : TableState :=
  {| sortKey := sortKey st;
     sortDirection := sortDirection st;
     selectedRows := s |}.

(** [column] is the descriptor that [columns.find] resolves key [k] to. *)
Definition resolves (p : Props) (k : string) (column : Column) : Prop :=
  find (fun col => String.eqb (key col) k) (columns p) = Some column.

(** The comparator's contract in the specification: one of -1, 0, 1. *)
Definition in_unit_range (v : float) : Prop :=
  v = (-1)%float \/ v = 0%float \/ v = 1%float.

Definition both_dates (a b : value) : bool :=
  match a, b with
  | VDate _ _, VDate _ _ => true
  | _, _ => false
  end.

(** The states of the sort-state machine, over the two sort cells. *)
Definition stateNONE (s : NumSet) : TableState :=
  {| sortKey := None; sortDirection := None; selectedRows := s |}.

Definition stateASC (k : string) (s : NumSet) : TableState :=
  {| sortKey := Some k; sortDirection := Some asc; selectedRows := s |}.

Definition stateDESC (k : string) (s : NumSet) : TableState :=
  {| sortKey := Some k; sortDirection := Some desc; selectedRows := s |}.

(* ================================================================== *)
(** ** The rendered table and its events *)

(** The remaining props, after the defaults of the destructuring
    ([loading = false], [selectable = false],
    [emptyMessage = "No data available"], [className = ""]). *)
Record Options : Type := {
  loading : bool;
  selectable : bool;
  emptyMessage : string;
  className : string
}.

Definition defaultOptions : Options :=
  {| loading := false; selectable := false;
     emptyMessage := "No data available"; className := "" |}.

Definition selectableOptions : Options :=
  {| loading := false; selectable := true;
     emptyMessage := "No data available"; className := "" |}.

Definition loadingOptions : Options :=
  {| loading := true; selectable := false;
     emptyMessage := "No data available"; className := "" |}.

Definition emailColumn : Column :=
  {| key := "email"; header := "Email"; sortable := Some true;
     render := None; width := None; align := None |}.

(** Rows with a gap: the first has no [name], the second a [null] one. *)
Definition namelessRow : Row := [("id", VNumber 3)].
Definition nullNameRow : Row := [("id", VNumber 4); ("name", VNull)].

(** The two alignment classes of a header or body cell, as the two
    template holes compute them. *)
Definition alignClasses (a : option Align) : list string :=
  [ match a with Some AlignCenter => "text-center" | _ => "" end;
    match a with Some AlignRight => "text-right" | _ => "text-left" end ].

(** The pair of chevrons of a sortable header: which of them is lit. *)
Record Chevrons : Type := {
  upActive : bool;
  downActive : bool
}.

Definition lit (up down : bool) : option Chevrons :=
  Some {| upActive := up; downActive := down |}.

Definition key_is (k : option string) (k' : string) : bool :=
  match k with
  | Some s => String.eqb s k'
  | None => false
  end.

Definition direction_is (d : SortDirection) (d' : Direction) : bool :=
  match d, d' with
  | Some asc, asc | Some desc, desc => true
  | _, _ => false
  end.

Definition chevrons (st : TableState) (column : Column) : option Chevrons :=
  if flag_truthy (sortable column) then
    Some {| upActive := key_is (sortKey st) (key column)
                        && direction_is (sortDirection st) asc;
            downActive := key_is (sortKey st) (key column)
                          && direction_is (sortDirection st) desc |}
  else None.

Inductive HeadCell : Type :=
| SelectAllCell (icon : SelectAllState)
| ColumnCell (label : string) (classes : list string) (cellWidth : option string)
             (isButton : bool) (marks : option Chevrons).

Inductive BodyCell : Type :=
| CheckboxCell (index : nat) (checked : bool)
| DataCell (classes : list string) (content : ReactNode).

Record BodyRow : Type := {
  highlighted : bool;
  cells : list BodyCell
}.

(** What the component returns: the loading panel, the empty panel with
    its message, or the table. *)
Inductive Rendered : Type :=
| LoadingView
| EmptyView (message : string)
| TableView (head : list HeadCell) (body : list BodyRow).

(** The place of a number in the numeric order: its sign class, then
    exponent and mantissa, mirrored for the negative numbers. *)
Definition order_key (f : spec_float) : Z * Z * Z :=
  match f with
  | S754_infinity true => (-2, 0, 0)
  | S754_finite true m e => (-1, - e, Zneg m)
  | S754_zero _ | S754_nan => (0, 0, 0)
  | S754_finite false m e => (1, e, Zpos m)
  | S754_infinity false => (2, 0, 0)
  end%Z.

Definition lex3 (a b : Z * Z * Z) : comparison :=
  match (fst (fst a) ?= fst (fst b))%Z with
  | Eq => match (snd (fst a) ?= snd (fst b))%Z with
          | Eq => (snd a ?= snd b)%Z
          | o => o
          end
  | o => o
  end.

(** Every row of [S] holds a number other than [NaN] under key [k]. *)
Definition number_column (k : string) (S : list Row) : Prop :=
  forall row, In row S ->
    exists x, get row k = VNumber x /\ PrimFloat.is_nan x = false.

(** Every row of [S] holds a string under key [k]. *)
Definition string_column (k : string) (S : list Row) : Prop :=
  forall row, In row S -> exists s, get row k = VString s.

Definition string_of (v : value) : string :=
  match v with
  | VString s => s
  | _ => ""
  end.

(** Which callback a notification went to. *)
Definition is_selection_notice (n : Notification) : bool :=
  match n with
  | SelectionChanged _ => true
  | SortChanged _ _ => false
  end.

(** The sort cells name nothing, or a direction and the key of a column
    that [columns.find] resolves to a sortable column. *)
Definition sort_cells_wf (p : Props) (st : TableState) : Prop :=
  (sortKey st = None /\ sortDirection st = None)
  \/ exists k d column,
       sortKey st = Some k /\ sortDirection st = Some d
       /\ resolves p k column /\ sortable column = Some true.

(** The selection holds no index twice and only indices of input rows. *)
Definition selection_wf (p : Props) (st : TableState) : Prop :=
  NoDup (selectedRows st)
  /\ forall i, In i (selectedRows st) -> i < List.length (data p).

(** Pair each element with its index, as [Array.prototype.map] passes it. *)
Fixpoint indexed_from (A : Type) (i : nat) (l : list A) : list (nat * A) :=
  match l with
  | [] => []
  | x :: l' => (i, x) :: indexed_from (S i) l'
  end.

Section View.
Context `{Host}.

Definition headRow (o : Options) (p : Props) (st : TableState) : list HeadCell :=
  (if selectable o then [SelectAllCell (selectAllState p st)] else [])
  ++ map (fun column =>
            ColumnCell (header column) (alignClasses (align column))
                       (width column) (flag_truthy (sortable column))
                       (chevrons st column))
         (columns p).

Definition bodyRow (o : Options) (p : Props) (st : TableState)
    (index : nat) (row : Row) : BodyRow :=
  {| highlighted := set_has index (selectedRows st);
     cells :=
       (if selectable o
        then [CheckboxCell index (set_has index (selectedRows st))]
        else [])
       ++ map (fun column =>
                 DataCell (alignClasses (align column)) (renderCell column row))
              (columns p) |}.

Definition renderTable (o : Options) (p : Props) (st : TableState) : Rendered :=
  if loading o then LoadingView
  else if Nat.eqb (List.length (sortedData p st)) 0 then EmptyView (emptyMessage o)
  else TableView (headRow o p st)
                 (map (fun ir => bodyRow o p st (fst ir) (snd ir))
                      (indexed_from 0 (sortedData p st))).

(** The row checkbox's [onClick]:
    [handleRowSelect(index, !selectedRows.has(index))]. *)
Definition clickRow (p : Props) (st : TableState) (index : nat)
    : TableState * list Notification :=
  handleRowSelect p st index (negb (set_has index (selectedRows st))).

(** The header cell's [onKeyDown]: Enter and the space bar sort a sortable
    column, every other key is left alone. *)
Definition keyDownHeader (p : Props) (st : TableState) (column : Column)
    (pressed : string) : TableState * list Notification :=
  if flag_truthy (sortable column)
     && (String.eqb pressed "Enter" || String.eqb pressed " ")
  then handleSort p st (key column)
  else (st, []).

(** The events the rendered table can receive. *)
Inductive Event : Type :=
| HeaderClick (column : Column)
| HeaderKeyDown (column : Column) (pressed : string)
| SelectAllClick
| RowClick (index : nat).

Definition dispatch (p : Props) (st : TableState) (ev : Event)
    : TableState * list Notification :=
  match ev with
  | HeaderClick column => clickHeader p st column
  | HeaderKeyDown column pressed => keyDownHeader p st column pressed
  | SelectAllClick => handleSelectAll p st
  | RowClick index => clickRow p st index
  end.

(** The element the event comes from is on the page: the table is shown,
    a header belongs to a column, the select-all button and the row
    checkboxes exist only in a selectable table, and a checkbox belongs to
    a row of the current view. *)
Definition offered (o : Options) (p : Props) (st : TableState) (ev : Event)
    : Prop :=
  loading o = false
  /\ sortedData p st <> []
  /\ match ev with
     | HeaderClick column | HeaderKeyDown column _ => In column (columns p)
     | SelectAllClick => selectable o = true
     | RowClick index =>
         selectable o = true /\ index < List.length (sortedData p st)
     end.

(** The states a mounted table goes through while its props stay the
    same. *)
Inductive reachable (o : Options) (p : Props) : TableState -> Prop :=
| reach_mount : reachable o p initialState
| reach_event (st : TableState) (ev : Event) :
    reachable o p st -> offered o p st ev ->
    reachable o p (fst (dispatch p st ev)).

End View.

(* ================================================================== *)
(** ** Selection tracker *)

Section Selection.
Context `{Host}.

Lemma set_has_seq (a n i : nat) :
  set_has i (seq a n) = false <-> ~ In i (seq a n).
Proof.
  unfold set_has. split.
  - intros Hf Hin.
    assert (existsb (Nat.eqb i) (seq a n) = true) as Ht.
    { apply existsb_exists. exists i. split; [exact Hin | apply Nat.eqb_refl]. }
    congruence.
  - intros Hn. destruct (existsb (Nat.eqb i) (seq a n)) eqn:E; [|reflexivity].
    apply existsb_exists in E. destruct E as [j [Hj Hij]].
    apply Nat.eqb_eq in Hij. subst j. contradiction.
Qed.

(** [forEach((_, index) => newSelectedRows.add(index))] over a view of
    [n] rows, continued from the indices below [a]. *)
Lemma add_indices_from (n a : nat) :
  fold_left (fun s index => set_add index s) (seq a n) (seq 0 a)
  = seq 0 (a + n).
Proof.
  revert a. induction n as [|n IH]; intros a; simpl.
  - now rewrite Nat.add_0_r.
  - unfold set_add at 2.
    assert (set_has a (seq 0 a) = false) as ->.
    { apply set_has_seq. rewrite in_seq. lia. }
    rewrite <- seq_S, IH. f_equal. lia.
Qed.

Lemma add_all_indices (n : nat) :
  fold_left (fun s index => set_add index s) (seq 0 n) [] = seq 0 n.
Proof. exact (add_indices_from n 0). Qed.

Lemma handleSelectAll_selection (p : Props) (st : TableState) :
  selectedRows (fst (handleSelectAll p st))
  = if Nat.eqb (set_size (selectedRows st)) (List.length (sortedData p st))
    then [] else seq 0 (List.length (sortedData p st)).
Proof.
  unfold handleSelectAll. simpl.
  destruct (Nat.eqb _ _); simpl; [reflexivity | apply add_all_indices].
Qed.

Lemma sortedData_withSelection (p : Props) (st : TableState) (s : NumSet) :
  sortedData p (withSelection st s) = sortedData p st.
Proof. reflexivity. Qed.

Lemma handleSelectAll_keeps_sort (p : Props) (st : TableState) :
  fst (handleSelectAll p st)
  = withSelection st (selectedRows (fst (handleSelectAll p st))).
Proof. reflexivity. Qed.

(** C2: [selectAll()] clears the selection when its size equals the
    length [N] of the current view and otherwise replaces it with exactly
    the indices [0..N-1]; from the empty selection one call selects all
    [N] rows and the next call deselects all. *)
Theorem selectAll_toggles (p : Props) (st : TableState) :
  let N := List.length (sortedData p st) in
  selectedRows (fst (handleSelectAll p st))
  = (if Nat.eqb (set_size (selectedRows st)) N then [] else seq 0 N)
  /\ (let st1 := fst (handleSelectAll p (withSelection st [])) in
      selectedRows st1 = seq 0 N
      /\ selectedRows (fst (handleSelectAll p st1)) = []).
Proof.
  cbv zeta. split; [apply handleSelectAll_selection|].
  assert (selectedRows (fst (handleSelectAll p (withSelection st [])))
          = seq 0 (List.length (sortedData p st))) as Hfirst.
  { rewrite handleSelectAll_selection, sortedData_withSelection. simpl.
    destruct (List.length (sortedData p st)); reflexivity. }
  split; [exact Hfirst|].
  rewrite (handleSelectAll_keeps_sort p (withSelection st [])), Hfirst.
  rewrite handleSelectAll_selection, !sortedData_withSelection.
  simpl selectedRows. unfold set_size.
  rewrite length_seq, Nat.eqb_refl. reflexivity.
Qed.

(** C3: [summarize()] is NONE for the empty selection, otherwise ALL when
    the selection's size equals the view length [N], otherwise PARTIAL;
    hence PARTIAL whenever [0 < |selection| < N], and for [N = 0] with the
    empty selection the answer is NONE. *)
Theorem summarize_tristate (p : Props) (st : TableState) :
  let n := set_size (selectedRows st) in
  let N := List.length (sortedData p st) in
  (n = 0 -> selectAllState p st = SelNone)
  /\ (n <> 0 -> n = N -> selectAllState p st = SelAll)
  /\ (n <> 0 -> n <> N -> selectAllState p st = SelPartial)
  /\ (0 < n < N -> selectAllState p st = SelPartial)
  /\ (N = 0 -> selectedRows st = [] -> selectAllState p st = SelNone).
Proof.
  cbv zeta. unfold selectAllState.
  repeat split.
  - intros ->. reflexivity.
  - intros Hn HN. apply Nat.eqb_neq in Hn. rewrite Hn.
    apply Nat.eqb_eq in HN. rewrite HN. reflexivity.
  - intros Hn HN. apply Nat.eqb_neq in Hn, HN. rewrite Hn, HN. reflexivity.
  - intros [Hpos Hlt].
    assert (Nat.eqb (set_size (selectedRows st)) 0 = false) as ->
      by (apply Nat.eqb_neq; lia).
    assert (Nat.eqb (set_size (selectedRows st))
                    (List.length (sortedData p st)) = false) as ->
      by (apply Nat.eqb_neq; lia).
    reflexivity.
  - intros _ ->. reflexivity.
Qed.

(** The two decisions read the selection through its size only. *)
Lemma selectAll_by_cardinality (p : Props) (st : TableState) (s s' : NumSet) :
  set_size s = set_size s' ->
  handleSelectAll p (withSelection st s) = handleSelectAll p (withSelection st s')
  /\ selectAllState p (withSelection st s) = selectAllState p (withSelection st s').
Proof.
  intros Hsz. unfold handleSelectAll, selectAllState.
  rewrite !sortedData_withSelection. simpl selectedRows.
  rewrite Hsz. split; reflexivity.
Qed.

(** C10: whether all rows are selected is decided by the size of the
    selection alone: for every selection whose size equals the view
    length [N], whatever indices it holds, [selectAll()] clears the
    selection and, when [N > 0], [summarize()] reports ALL. *)
Theorem all_selected_by_size (p : Props) (st : TableState)
    (Hsize : set_size (selectedRows st) = List.length (sortedData p st)) :
  selectedRows (fst (handleSelectAll p st)) = []
  /\ (0 < List.length (sortedData p st) -> selectAllState p st = SelAll).
Proof.
  split.
  - rewrite handleSelectAll_selection, Hsize, Nat.eqb_refl. reflexivity.
  - intros Hpos. unfold selectAllState. rewrite Hsize, Nat.eqb_refl.
    assert (Nat.eqb (List.length (sortedData p st)) 0 = false) as ->
      by (apply Nat.eqb_neq; lia).
    reflexivity.
Qed.

Lemma set_delete_absent (i : nat) (s : NumSet) :
  set_has i s = false -> set_delete i s = s.
Proof.
  unfold set_has, set_delete. induction s as [|j s IH]; simpl; [reflexivity|].
  intros Hf. apply orb_false_iff in Hf. destruct Hf as [Hij Hs].
  rewrite Hij. simpl. now rewrite IH.
Qed.

Lemma set_delete_added (i : nat) (s : NumSet) :
  set_delete i (set_add i s) = set_delete i s.
Proof.
  unfold set_add. destruct (set_has i s); [reflexivity|].
  unfold set_delete. rewrite filter_app. simpl.
  rewrite Nat.eqb_refl. simpl. apply app_nil_r.
Qed.

(** Select then deselect leaves the selection without [index], whether
    or not it held it before. *)
Lemma toggle_twice_selection (p : Props) (st : TableState) (index : nat) :
  selectedRows
    (fst (handleRowSelect p (fst (handleRowSelect p st index true)) index false))
  = set_delete index (selectedRows st).
Proof. simpl. apply set_delete_added. Qed.

(** C8, as amended: for every selection state and every row index [i]
    that is not selected, [toggle(i, true)] followed by
    [toggle(i, false)] returns the state, and so the selection set, to
    what it was. *)
Theorem toggle_twice_unselected (p : Props) (st : TableState) (i : nat)
    (Hout : set_has i (selectedRows st) = false) :
  fst (handleRowSelect p (fst (handleRowSelect p st i true)) i false) = st.
Proof.
  destruct st as [k d s]. unfold handleRowSelect. simpl in *.
  rewrite set_delete_added, set_delete_absent by exact Hout. reflexivity.
Qed.

End Selection.

(* ================================================================== *)
(** ** Sort-state machine *)

Section SortState.
Context `{Host}.

Variable p : Props.

Lemma resolves_key (k : string) (column : Column) :
  resolves p k column -> key column = k.
Proof.
  intros Hf. apply find_some in Hf. destruct Hf as [_ Hk].
  now apply String.eqb_eq.
Qed.

Lemma handleSort_sortable (st : TableState) (k : string) (column : Column) :
  resolves p k column -> sortable column = Some true ->
  handleSort p st k
  = let newDirection : SortDirection :=
      match sortKey st with
      | Some k' =>
          if String.eqb k' k then
            match sortDirection st with
            | Some asc => Some desc
            | Some desc => None
            | None => Some asc
            end
          else Some asc
      | None => Some asc
      end in
    ({| sortKey := match newDirection with Some _ => Some k | None => None end;
        sortDirection := newDirection;
        selectedRows := selectedRows st |},
     match newDirection with
     | Some d => if onSort p then [SortChanged k d] else []
     | None => []
     end).
Proof.
  intros Hf Hs. unfold handleSort, resolves in *. rewrite Hf, Hs. reflexivity.
Qed.

Lemma clickHeader_sortable (st : TableState) (column : Column) :
  sortable column = Some true ->
  clickHeader p st column = handleSort p st (key column).
Proof. intros Hs. unfold clickHeader. now rewrite Hs. Qed.

(** C1: on a click of the sortable column [k] the machine goes from NONE
    to ASC(k), from ASC(k) to DESC(k), from DESC(k) to NONE, and from any
    state whose active key is not [k] to ASC(k); three clicks on the
    column from NONE end in NONE with the view in the input order. *)
Theorem click_cycle (k : string) (column : Column) (s : NumSet)
    (Hcol : resolves p k column) (Hsortable : sortable column = Some true) :
  fst (clickHeader p (stateNONE s) column) = stateASC k s
  /\ fst (clickHeader p (stateASC k s) column) = stateDESC k s
  /\ fst (clickHeader p (stateDESC k s) column) = stateNONE s
  /\ (forall st, sortKey st <> Some k ->
        fst (clickHeader p st column) = stateASC k (selectedRows st))
  /\ (let st1 := fst (clickHeader p (stateNONE s) column) in
      let st2 := fst (clickHeader p st1 column) in
      let st3 := fst (clickHeader p st2 column) in
      st3 = stateNONE s /\ sortedData p st3 = data p).
Proof.
  pose proof (resolves_key Hcol) as Hk.
  assert (forall st, clickHeader p st column = handleSort p st k) as Hclick.
  { intros st. rewrite clickHeader_sortable, Hk by exact Hsortable. reflexivity. }
  assert (fst (clickHeader p (stateNONE s) column) = stateASC k s) as H1.
  { rewrite Hclick, (handleSort_sortable _ Hcol Hsortable). reflexivity. }
  assert (fst (clickHeader p (stateASC k s) column) = stateDESC k s) as H2.
  { rewrite Hclick, (handleSort_sortable _ Hcol Hsortable). simpl.
    rewrite String.eqb_refl. reflexivity. }
  assert (fst (clickHeader p (stateDESC k s) column) = stateNONE s) as H3.
  { rewrite Hclick, (handleSort_sortable _ Hcol Hsortable). simpl.
    rewrite String.eqb_refl. reflexivity. }
  repeat split; try assumption.
  - intros st Hother.
    rewrite Hclick, (handleSort_sortable _ Hcol Hsortable).
    destruct st as [[k'|] d sel]; simpl in *; [|reflexivity].
    destruct (String.eqb k' k) eqn:E; [|reflexivity].
    apply String.eqb_eq in E. subst k'. congruence.
  - cbv zeta. rewrite H1, H2, H3. reflexivity.
  - cbv zeta. rewrite H1, H2, H3. reflexivity.
Qed.

(** C6: a click on a sortable column of a table whose caller supplied
    the sort callback fires it exactly once, with the key and the new
    direction, when the transition lands in ASC or DESC, and not at all
    when it lands in NONE. *)
Theorem sort_notification (st : TableState) (k : string) (column : Column)
    (Hcallback : onSort p = true)
    (Hcol : resolves p k column) (Hsortable : sortable column = Some true) :
  match sortDirection (fst (handleSort p st k)) with
  | Some d =>
      sortKey (fst (handleSort p st k)) = Some k
      /\ snd (handleSort p st k) = [SortChanged k d]
  | None =>
      sortKey (fst (handleSort p st k)) = None
      /\ snd (handleSort p st k) = []
  end.
Proof.
  rewrite (handleSort_sortable _ Hcol Hsortable). cbv zeta. rewrite Hcallback.
  destruct (sortKey st) as [k'|]; simpl; [|split; reflexivity].
  destruct (String.eqb k' k); simpl; [|split; reflexivity].
  destruct (sortDirection st) as [[|]|]; simpl; split; reflexivity.
Qed.

(** Without a sort callback nothing is ever fired. *)
Lemma no_callback_no_notification (st : TableState) (k : string) :
  onSort p = false -> snd (handleSort p st k) = [].
Proof.
  intros Hoff. unfold handleSort.
  destruct (find _ _) as [column|]; [|reflexivity].
  destruct (negb _); [reflexivity|]. simpl. rewrite Hoff.
  destruct (sortKey st) as [k'|]; [|reflexivity].
  destruct (String.eqb k' k); [|reflexivity].
  destruct (sortDirection st) as [[|]|]; reflexivity.
Qed.

(** C7: a sort request on a column whose [sortable] flag is not [true]
    changes nothing and fires nothing, both at the header's click guard
    and inside [handleSort]; the same holds for a key no column has. *)
Theorem unsortable_click_ignored (st : TableState) (column : Column)
    (Hflag : sortable column <> Some true) :
  clickHeader p st column = (st, [])
  /\ (forall k, resolves p k column -> handleSort p st k = (st, [])).
Proof.
  assert (flag_truthy (sortable column) = false) as Hf.
  { destruct (sortable column) as [[|]|]; [congruence | reflexivity..]. }
  split.
  - unfold clickHeader. now rewrite Hf.
  - intros k Hcol. unfold handleSort, resolves in *. now rewrite Hcol, Hf.
Qed.

Lemma unknown_key_ignored (st : TableState) (k : string) :
  find (fun col => String.eqb (key col) k) (columns p) = None ->
  handleSort p st k = (st, []).
Proof. intros Hnone. unfold handleSort. now rewrite Hnone. Qed.

End SortState.

(* ================================================================== *)
(** ** Cell renderer *)

Section Renderer.
Context `{Host}.

(** C9: [renderCell] returns the custom renderer's result for
    [(row[column.key], row)] unchanged when the column has one, and
    otherwise the display string of [row[column.key]], the empty string
    for [null] and for an absent value; without a renderer a boolean
    renders as ["true"] or ["false"] and [null] as [""]. *)
Theorem renderCell_dispatch (column : Column) (row : Row) :
  (forall f, render column = Some f ->
     renderCell column row = f (get row (key column)) row)
  /\ (render column = None ->
      renderCell column row
      = NodeText (match get row (key column) with
                  | VNull | VUndefined => ""
                  | v => ToString v
                  end))
  /\ (forall b, render column = None -> get row (key column) = VBool b ->
      renderCell column row = NodeText (if b then "true" else "false"))
  /\ (render column = None -> get row (key column) = VNull ->
      renderCell column row = NodeText "").
Proof.
  unfold renderCell. repeat split.
  - intros f ->. reflexivity.
  - intros ->. destruct (get row (key column)); reflexivity.
  - intros b -> ->. destruct b; reflexivity.
  - intros -> ->. reflexivity.
Qed.

End Renderer.

(* ================================================================== *)
(** ** Comparator *)

Section Comparator.
Context `{Host}.

Lemma float_neq (x y : float) :
  PrimFloat.eqb x y = false -> PrimFloat.eqb y y = true -> x <> y.
Proof. intros Hxy Hyy ->. congruence. Qed.

Lemma compareValues_identical (a b : value) :
  strict_eq a b = true -> compareValues a b = 0%float.
Proof. intros Heq. unfold compareValues. now rewrite Heq. Qed.

Lemma compareValues_dates (i j : nat) (ta tb : float) :
  i <> j -> compareValues (VDate i ta) (VDate j tb) = (ta - tb)%float.
Proof.
  intros Hij. unfold compareValues. simpl.
  apply Nat.eqb_neq in Hij. now rewrite Hij.
Qed.

(** C5, as amended: [compare] returns a number for every pair of cell
    values; 0 for identical ([===]) values; one of -1, 0, 1 for every
    pair that is not two [Date]s, as long as the host's [localeCompare]
    returns one of -1, 0, 1; and for two distinct [Date] objects the
    difference of their time values. *)
Theorem compareValues_range (a b : value)
    (Hlocale : forall s t, in_unit_range (localeCompare s t)) :
  (strict_eq a b = true -> compareValues a b = 0%float)
  /\ (both_dates a b = false -> in_unit_range (compareValues a b))
  /\ (forall i j ta tb, a = VDate i ta -> b = VDate j tb -> i <> j ->
      compareValues a b = (ta - tb)%float).
Proof.
  split; [apply compareValues_identical|]. split.
  - intros Hnd. unfold compareValues.
    destruct (strict_eq a b) eqn:Heq; [right; left; reflexivity|].
    destruct (is_nullish a) eqn:Ha; [left; reflexivity|].
    destruct (is_nullish b) eqn:Hb; [right; right; reflexivity|].
    destruct a as [| |pa|x|sa|ia ta|ia ra], b as [| |pb|y|sb|ib tb|ib rb];
      try discriminate; try apply Hlocale.
    + destruct pa, pb; simpl in Heq; try discriminate;
        [right; right | left]; reflexivity.
    + destruct (x <? y)%float; [left | right; right]; reflexivity.
  - intros i j ta tb -> -> Hij. now apply compareValues_dates.
Qed.

End Comparator.

(* ================================================================== *)
(** ** Sort engine *)

(** *** The insertion sort conforms *)
Section InsertionSortFacts.
Variable A : Type.
Variable comparefn : A -> A -> float.

Let c : A -> A -> comparison := order_of comparefn.
Let le (a b : A) : Prop := c a b <> Gt.

Lemma insertion_insert_perm (x : A) (l : list A) :
  Permutation (insertion_insert comparefn x l) (x :: l).
Proof.
  induction l as [|y l IH]; simpl; [apply Permutation_refl|].
  destruct (sign_of (comparefn x y)); try apply Permutation_refl.
  rewrite IH. apply perm_swap.
Qed.

Lemma insertion_sort_perm (l : list A) : Permutation (insertion_sort comparefn l) l.
Proof.
  induction l as [|x l IH]; simpl; [constructor|].
  rewrite insertion_insert_perm. now constructor.
Qed.

Lemma insertion_sort_length (l : list A) :
  List.length (insertion_sort comparefn l) = List.length l.
Proof. apply Permutation_length, insertion_sort_perm. Qed.

Lemma insertion_sort_In (l : list A) (a : A) :
  In a (insertion_sort comparefn l) <-> In a l.
Proof.
  split; apply Permutation_in;
    [apply insertion_sort_perm | apply Permutation_sym, insertion_sort_perm].
Qed.

Variable universe : list A.
Hypothesis Hcons : consistent c universe.

Lemma insertion_insert_sorted (x : A) (l : list A) :
  In x universe -> incl l universe ->
  StronglySorted le l -> StronglySorted le (insertion_insert comparefn x l).
Proof.
  destruct Hcons as [Hdual Htrans].
  intros Hx. induction l as [|y l IH]; intros Hin Hs; simpl.
  - repeat constructor.
  - assert (In y universe) as Hy by (apply Hin; now left).
    assert (incl l universe) as Hl by (intros z Hz; apply Hin; now right).
    inversion Hs as [|? ? Hs' Hall]; subst.
    destruct (sign_of (comparefn x y)) eqn:E.
    + constructor; [exact Hs|]. constructor.
      * unfold le, c, order_of. rewrite E. discriminate.
      * rewrite Forall_forall in *. intros z Hz.
        apply (Htrans x y z);
          [exact Hx | exact Hy | now apply Hl
          | unfold c, order_of; rewrite E; discriminate
          | now apply Hall].
    + constructor; [exact Hs|]. constructor.
      * unfold le, c, order_of. rewrite E. discriminate.
      * rewrite Forall_forall in *. intros z Hz.
        apply (Htrans x y z);
          [exact Hx | exact Hy | now apply Hl
          | unfold c, order_of; rewrite E; discriminate
          | now apply Hall].
    + constructor; [apply IH; assumption|].
      rewrite Forall_forall in *. intros z Hz.
      apply (Permutation_in _ (insertion_insert_perm x l)) in Hz.
      destruct Hz as [<-|Hz]; [|now apply Hall].
      unfold le. rewrite (Hdual x y Hx Hy).
      unfold c, order_of. rewrite E. discriminate.
Qed.

Lemma insertion_sort_sorted (l : list A) :
  incl l universe -> StronglySorted le (insertion_sort comparefn l).
Proof.
  induction l as [|x l IH]; intros Hin; simpl; [constructor|].
  apply insertion_insert_sorted.
  - apply Hin. now left.
  - intros z Hz. apply (proj1 (insertion_sort_In l z)) in Hz. apply Hin. now right.
  - apply IH. intros z Hz. apply Hin. now right.
Qed.

End InsertionSortFacts.

Lemma insertion_sort_conforms : sort_conforms insertion_sort.
Proof.
  intros A comparefn l. split; [apply insertion_sort_perm|].
  intros [_ Hcons]. apply insertion_sort_sorted with (universe := l);
    [exact Hcons | apply incl_refl].
Qed.

(** *** A consistent comparator ranks the elements *)
Section Ranking.
Variable A : Type.
Variable c : A -> A -> comparison.
Variable l : list A.
Hypothesis Hcons : consistent c l.

Lemma consistent_refl (a : A) : In a l -> c a a = Eq.
Proof.
  intros Ha. destruct Hcons as [Hdual _].
  specialize (Hdual a a Ha Ha). destruct (c a a); simpl in Hdual; congruence.
Qed.

Lemma before_not_after (x a b : A) :
  In x l -> In a l -> In b l -> c x a = Lt -> c a b <> Gt -> c x b = Lt.
Proof.
  intros Hx Ha Hb Hxa Hab. destruct Hcons as [Hdual Htrans].
  destruct (c x b) eqn:Hxb; [exfalso | reflexivity | exfalso].
  - assert (c b x <> Gt) as Hbx
      by (rewrite (Hdual x b Hx Hb), Hxb; discriminate).
    specialize (Htrans a b x Ha Hb Hx Hab Hbx).
    rewrite (Hdual x a Hx Ha), Hxa in Htrans. now apply Htrans.
  - assert (c b x <> Gt) as Hbx
      by (rewrite (Hdual x b Hx Hb), Hxb; discriminate).
    specialize (Htrans a b x Ha Hb Hx Hab Hbx).
    rewrite (Hdual x a Hx Ha), Hxa in Htrans. now apply Htrans.
Qed.

Lemma filter_length_le (p q : A -> bool) (m : list A) :
  (forall x, In x m -> p x = true -> q x = true) ->
  List.length (filter p m) <= List.length (filter q m).
Proof.
  induction m as [|y m IH]; intros Himp; simpl; [lia|].
  assert (List.length (filter p m) <= List.length (filter q m)) as Hle
    by (apply IH; intros x Hx; apply Himp; now right).
  destruct (p y) eqn:Hp.
  - rewrite (Himp y (or_introl eq_refl) Hp). simpl. lia.
  - destruct (q y); simpl; lia.
Qed.

Lemma filter_length_lt (p q : A -> bool) (m : list A) (w : A) :
  (forall x, In x m -> p x = true -> q x = true) ->
  In w m -> p w = false -> q w = true ->
  List.length (filter p m) < List.length (filter q m).
Proof.
  induction m as [|y m IH]; intros Himp Hw Hpw Hqw; simpl; [contradiction|].
  assert (forall x, In x m -> p x = true -> q x = true) as Himp'
    by (intros x Hx; apply Himp; now right).
  destruct Hw as [->|Hw].
  - rewrite Hpw, Hqw. simpl.
    pose proof (filter_length_le p q m Himp'). lia.
  - specialize (IH Himp' Hw Hpw Hqw).
    destruct (p y) eqn:Hp.
    + rewrite (Himp y (or_introl eq_refl) Hp). simpl. lia.
    + destruct (q y); simpl; lia.
Qed.

Lemma rank_before (a b : A) :
  In a l -> In b l -> c a b = Lt -> rank c l a < rank c l b.
Proof.
  intros Ha Hb Hab. unfold rank.
  apply filter_length_lt with (w := a).
  - intros x Hx Hxa. unfold is_before in *.
    destruct (c x a) eqn:E; try discriminate.
    rewrite (before_not_after Hx Ha Hb E); [reflexivity|].
    rewrite Hab. discriminate.
  - exact Ha.
  - now rewrite (consistent_refl a Ha).
  - now rewrite Hab.
Qed.

Lemma rank_tied_le (a b : A) :
  In a l -> In b l -> c a b = Eq -> rank c l a <= rank c l b.
Proof.
  intros Ha Hb Hab. unfold rank. apply filter_length_le.
  intros x Hx Hxa. unfold is_before in *.
  destruct (c x a) eqn:E; try discriminate.
  rewrite (before_not_after Hx Ha Hb E); [reflexivity|].
  rewrite Hab. discriminate.
Qed.

(** On the elements of [l] the comparator is the comparison of ranks. *)
Lemma rank_compare (a b : A) :
  In a l -> In b l -> c a b = Nat.compare (rank c l a) (rank c l b).
Proof.
  intros Ha Hb. destruct (proj1 Hcons a b Ha Hb) as [].
  pose proof (proj1 Hcons a b Ha Hb) as Hdual.
  destruct (c a b) eqn:Hab; symmetry.
  - apply Nat.compare_eq_iff. apply Nat.le_antisymm.
    + now apply rank_tied_le.
    + apply rank_tied_le; [exact Hb | exact Ha |]. now rewrite Hdual.
  - apply Nat.compare_lt_iff. now apply rank_before.
  - apply Nat.compare_gt_iff. apply rank_before; [exact Hb | exact Ha |].
    now rewrite Hdual.
Qed.

End Ranking.

(** *** Sorted lists of numbers *)
Section SortedNat.

Lemma StronglySorted_snoc (A : Type) (R : A -> A -> Prop) (l : list A) (a : A) :
  StronglySorted R l -> Forall (fun x => R x a) l -> StronglySorted R (l ++ [a]).
Proof.
  induction l as [|y l IH]; intros Hs Hall; simpl.
  - repeat constructor.
  - inversion Hs as [|? ? Hs' Hy]; subst. inversion Hall as [|? ? Hya Hall']; subst.
    constructor; [now apply IH|].
    apply Forall_app. split; [exact Hy | now constructor].
Qed.

Lemma StronglySorted_rev (A : Type) (R : A -> A -> Prop) (l : list A) :
  StronglySorted R l -> StronglySorted (fun x y => R y x) (rev l).
Proof.
  induction 1 as [|a l Hs IH Hall]; simpl; [constructor|].
  apply StronglySorted_snoc; [exact IH|].
  apply Forall_rev. exact Hall.
Qed.

Lemma StronglySorted_map_in (A B : Type) (R : A -> A -> Prop)
    (R' : B -> B -> Prop) (f : A -> B) (P : A -> Prop) (l : list A) :
  (forall a b, P a -> P b -> R a b -> R' (f a) (f b)) ->
  Forall P l -> StronglySorted R l -> StronglySorted R' (map f l).
Proof.
  intros Hmono HP Hs. induction Hs as [|a l Hs IH Hall]; simpl; [constructor|].
  inversion HP as [|? ? Pa HP']; subst.
  constructor; [now apply IH|].
  rewrite Forall_forall in *. intros y Hy.
  apply in_map_iff in Hy. destruct Hy as [b [<- Hb]].
  apply Hmono; auto.
Qed.

(** A multiset of numbers has one descending arrangement. *)
Lemma descending_unique (l1 l2 : list nat) :
  StronglySorted ge l1 -> StronglySorted ge l2 -> Permutation l1 l2 -> l1 = l2.
Proof.
  revert l2. induction l1 as [|a l1 IH]; intros l2 Hs1 Hs2 Hperm.
  - apply Permutation_nil in Hperm. now subst.
  - destruct l2 as [|b l2].
    { apply Permutation_sym, Permutation_nil in Hperm. discriminate. }
    inversion Hs1 as [|? ? Hs1' Ha]; subst.
    inversion Hs2 as [|? ? Hs2' Hb]; subst.
    assert (a = b) as ->.
    { rewrite Forall_forall in Ha, Hb.
      assert (In b (a :: l1)) as Hbin
        by (apply (Permutation_in _ (Permutation_sym Hperm)); now left).
      assert (In a (b :: l2)) as Hain
        by (apply (Permutation_in _ Hperm); now left).
      destruct Hbin as [->|Hbin]; [reflexivity|].
      destruct Hain as [->|Hain]; [reflexivity|].
      specialize (Ha b Hbin). specialize (Hb a Hain). lia. }
    f_equal. apply IH; try assumption.
    now apply Permutation_cons_inv in Hperm.
Qed.

Lemma map_eq_Forall2 (A : Type) (f : A -> nat) (P : A -> Prop)
    (R : A -> A -> Prop) (l1 l2 : list A) :
  (forall a b, P a -> P b -> f a = f b -> R a b) ->
  Forall P l1 -> Forall P l2 -> map f l1 = map f l2 -> Forall2 R l1 l2.
Proof.
  intros HR. revert l2. induction l1 as [|a l1 IH]; intros [|b l2] H1 H2 Heq;
    simpl in Heq; try discriminate; [constructor|].
  inversion H1; inversion H2; subst. injection Heq as Hab Hrest.
  constructor; [now apply HR | now apply IH].
Qed.

End SortedNat.

(** *** Ascending against descending *)
Section Reversal.
Variable sortfn : forall A : Type, (A -> A -> float) -> list A -> list A.
Hypothesis Hsort : sort_conforms sortfn.

Variable A : Type.
Variable ascending descending : A -> A -> float.
Hypothesis Hnegated :
  forall a b, order_of descending a b = CompOpp (order_of ascending a b).
Hypothesis Hnan :
  forall a b, PrimFloat.is_nan (descending a b) = PrimFloat.is_nan (ascending a b).

Variable l : list A.
Hypothesis Hconsistent : consistent_comparator ascending l.

Let Hcons : consistent (order_of ascending) l := proj2 Hconsistent.

Lemma consistent_negated : consistent_comparator descending l.
Proof.
  destruct Hconsistent as [Hnum [Hdual Htrans]]. split; [|split].
  - intros a b Ha Hb. rewrite Hnan. now apply Hnum.
  - intros a b Ha Hb. rewrite !Hnegated, (Hdual a b Ha Hb). reflexivity.
  - intros a b x Ha Hb Hx. rewrite !Hnegated. intros Hab Hbx Hax.
    apply (Htrans x b a Hx Hb Ha).
    + rewrite (Hdual b x Hb Hx).
      destruct (order_of ascending b x); simpl in *; congruence.
    + rewrite (Hdual a b Ha Hb).
      destruct (order_of ascending a b); simpl in *; congruence.
    + rewrite (Hdual a x Ha Hx).
      destruct (order_of ascending a x); simpl in *; congruence.
Qed.

Lemma sorted_elements (comparefn : A -> A -> float) :
  Forall (fun a => In a l) (@sortfn A comparefn l).
Proof.
  apply Forall_forall. intros a Ha.
  exact (Permutation_in a (proj1 (Hsort comparefn l)) Ha).
Qed.

Lemma reversed_ascending_ties_descending :
  Forall2 (fun a d => order_of ascending a d = Eq)
          (rev (@sortfn A ascending l)) (@sortfn A descending l).
Proof.
  set (r := rank (order_of ascending) l).
  assert (Forall (fun a => In a l) (rev (@sortfn A ascending l))) as Hin1
    by (apply Forall_rev, sorted_elements).
  pose proof (sorted_elements descending) as Hin2.
  apply map_eq_Forall2 with (f := r) (P := fun a => In a l);
    [| exact Hin1 | exact Hin2 |].
  - intros a b Ha Hb Hr. rewrite (rank_compare Hcons a b Ha Hb).
    fold r. rewrite Hr. apply Nat.compare_refl.
  - apply descending_unique.
    + rewrite map_rev. apply (StronglySorted_rev (R := le)).
      apply StronglySorted_map_in
        with (R := fun a b => order_of ascending a b <> Gt) (P := fun a => In a l).
      * intros a b Ha Hb Hab. rewrite (rank_compare Hcons a b Ha Hb) in Hab.
        now apply Nat.compare_le_iff.
      * apply sorted_elements.
      * exact (proj2 (Hsort ascending l) Hconsistent).
    + apply StronglySorted_map_in
        with (R := fun a b => order_of descending a b <> Gt) (P := fun a => In a l).
      * intros a b Ha Hb Hab.
        rewrite Hnegated, (rank_compare Hcons a b Ha Hb) in Hab.
        unfold ge. apply Nat.compare_ge_iff. fold r in Hab.
        intros Hlt. apply Hab. now rewrite Hlt.
      * exact Hin2.
      * exact (proj2 (Hsort descending l) consistent_negated).
    + apply Permutation_map.
      rewrite <- Permutation_rev.
      rewrite (proj1 (Hsort ascending l)), (proj1 (Hsort descending l)).
      reflexivity.
Qed.

End Reversal.

Section ConsistencyCheck.
Variable A : Type.
Variable c : A -> A -> comparison.

Lemma comparison_eqb_eq (o o' : comparison) :
  comparison_eqb o o' = true -> o = o'.
Proof. destruct o, o'; simpl; congruence. Qed.

Lemma consistentb_sound (l : list A) : consistentb c l = true -> consistent c l.
Proof.
  unfold consistentb. intros Hall. rewrite forallb_forall in Hall. split.
  - intros a b Ha Hb. specialize (Hall a Ha). rewrite forallb_forall in Hall.
    specialize (Hall b Hb). apply andb_true_iff in Hall.
    now apply comparison_eqb_eq.
  - intros a b x Ha Hb Hx Hab Hbx. specialize (Hall a Ha).
    rewrite forallb_forall in Hall. specialize (Hall b Hb).
    apply andb_true_iff in Hall. destruct Hall as [_ Hall].
    rewrite forallb_forall in Hall. specialize (Hall x Hx).
    destruct (c a b), (c b x), (c a x); simpl in Hall; congruence.
Qed.

End ConsistencyCheck.

Lemma consistent_comparatorb_sound (A : Type) (comparefn : A -> A -> float)
    (l : list A) :
  consistent_comparatorb comparefn l = true -> consistent_comparator comparefn l.
Proof.
  unfold consistent_comparatorb. intros Hb. apply andb_true_iff in Hb.
  destruct Hb as [Hnum Hcons]. split; [|now apply consistentb_sound].
  intros a b Ha Hb. rewrite forallb_forall in Hnum. specialize (Hnum a Ha).
  rewrite forallb_forall in Hnum. specialize (Hnum b Hb).
  now apply negb_true_iff in Hnum.
Qed.

Section SortEngine.
Context `{Host}.

(** The sort reads [-v] as the opposite of [v]. *)
Lemma sign_of_opp (v : float) : sign_of (- v) = CompOpp (sign_of v).
Proof.
  unfold sign_of. rewrite !ltb_spec, opp_spec.
  change (Prim2SF 0) with (S754_zero false).
  destruct (Prim2SF v) as [s|s| |s m e]; try destruct s; reflexivity.
Qed.

Lemma is_nan_opp (v : float) : PrimFloat.is_nan (- v) = PrimFloat.is_nan v.
Proof.
  unfold PrimFloat.is_nan. rewrite !FloatAxioms.eqb_spec, opp_spec.
  destruct (Prim2SF v) as [s|s| |s m e]; try reflexivity.
  - destruct s; reflexivity.
  - unfold SFeqb, SFcompare, SFopp.
    rewrite Z.compare_refl, Pos.compare_cont_refl.
    destruct s; reflexivity.
Qed.

Lemma desc_negates_asc (k : string) (a b : Row) :
  order_of (rowComparator k desc) a b
  = CompOpp (order_of (rowComparator k asc) a b).
Proof. unfold order_of, rowComparator. apply sign_of_opp. Qed.

Lemma desc_nan_as_asc (k : string) (a b : Row) :
  PrimFloat.is_nan (rowComparator k desc a b)
  = PrimFloat.is_nan (rowComparator k asc a b).
Proof. unfold rowComparator. apply is_nan_opp. Qed.

Lemma sortedRows_sorts (rows : list Row) (k : string) (d : Direction) :
  k <> "" ->
  sortedRows rows (Some k) (Some d) = Array_sort (rowComparator k d) rows.
Proof.
  intros Hk. unfold sortedRows, key_truthy.
  destruct (String.eqb k "") eqn:E; [|reflexivity].
  apply String.eqb_eq in E. contradiction.
Qed.

Lemma sortedRows_unsorted (rows : list Row) (k : option string)
    (d : SortDirection) :
  key_truthy k = false \/ d = None -> sortedRows rows k d = rows.
Proof.
  unfold sortedRows. intros [Hk | ->].
  - destruct k as [key|], d as [dir|]; try reflexivity. now rewrite Hk.
  - destruct k; reflexivity.
Qed.

Lemma sortedRows_perm (rows : list Row) (k : option string)
    (d : SortDirection) :
  sort_conforms Array_sort -> Permutation (sortedRows rows k d) rows.
Proof.
  intros Hsort.
  unfold sortedRows. destruct k as [key|], d as [dir|]; try reflexivity.
  destruct (key_truthy (Some key)); [apply Hsort | reflexivity].
Qed.

(** C4, as amended: on a host whose [sort] conforms to the language, for
    every sequence [S] and every non-empty key [k] on whose values in [S]
    [compare] is a consistent comparator (never [NaN], antisymmetric in
    sign, transitive), the ascending sort reversed and
    the descending sort (the ascending comparator negated) are both
    rearrangements of [S] and agree position by position up to ties: the
    rows at equal positions compare as equal. *)
Theorem reversed_asc_is_desc (S : list Row) (k : string)
    (Hsort : sort_conforms Array_sort)
    (Hkey : k <> "")
    (Hcons : consistent_comparator (rowComparator k asc) S) :
  Permutation (sortedRows S (Some k) (Some asc)) S
  /\ Permutation (sortedRows S (Some k) (Some desc)) S
  /\ Forall2 (tied k) (rev (sortedRows S (Some k) (Some asc)))
                      (sortedRows S (Some k) (Some desc)).
Proof.
  split; [now apply sortedRows_perm|]. split; [now apply sortedRows_perm|].
  rewrite !sortedRows_sorts by exact Hkey.
  apply reversed_ascending_ties_descending
    with (ascending := rowComparator k asc) (descending := rowComparator k desc);
    [exact Hsort | apply desc_negates_asc | apply desc_nan_as_asc | exact Hcons].
Qed.

End SortEngine.

(* ================================================================== *)
(** ** The comparator on typed columns *)

Section NumericOrder.

Lemma SFcompare_key (x y : spec_float) :
  x <> S754_nan -> y <> S754_nan ->
  SFcompare x y = Some (lex3 (order_key x) (order_key y)).
Proof.
  intros Hx Hy.
  destruct x as [sx|sx| |sx mx ex], y as [sy|sy| |sy my ey];
    try congruence; try (destruct sx); try (destruct sy); try reflexivity.
  unfold SFcompare, order_key, lex3. simpl fst. simpl snd.
  rewrite Z.compare_opp. rewrite (Z.compare_antisym ex ey).
  change (Z.neg mx ?= Z.neg my)%Z with (CompOpp (Pos.compare mx my)).
  unfold Pos.compare.
  destruct (ex ?= ey)%Z; reflexivity.
Qed.

Lemma lex3_antisym (a b : Z * Z * Z) : lex3 b a = CompOpp (lex3 a b).
Proof.
  destruct a as [[a1 a2] a3], b as [[b1 b2] b3]. unfold lex3. simpl.
  rewrite (Z.compare_antisym a1 b1), (Z.compare_antisym a2 b2),
    (Z.compare_antisym a3 b3).
  destruct (a1 ?= b1)%Z, (a2 ?= b2)%Z, (a3 ?= b3)%Z; reflexivity.
Qed.

Lemma lex3_le_iff (a b : Z * Z * Z) :
  lex3 a b <> Gt <->
  (fst (fst a) < fst (fst b)
   \/ fst (fst a) = fst (fst b)
      /\ (snd (fst a) < snd (fst b)
          \/ snd (fst a) = snd (fst b) /\ snd a <= snd b))%Z.
Proof.
  destruct a as [[a1 a2] a3], b as [[b1 b2] b3]. unfold lex3. simpl.
  destruct (Z.compare_spec a1 b1);
    [|split; [intros _; lia | discriminate] | split; [congruence | lia]].
  destruct (Z.compare_spec a2 b2);
    [|split; [intros _; lia | discriminate] | split; [congruence | lia]].
  destruct (Z.compare_spec a3 b3); split;
    try congruence; try lia; try discriminate.
Qed.

Lemma lex3_trans (a b c : Z * Z * Z) :
  lex3 a b <> Gt -> lex3 b c <> Gt -> lex3 a c <> Gt.
Proof. rewrite !lex3_le_iff. lia. Qed.

Lemma is_nan_spec (x : float) :
  PrimFloat.is_nan x = true <-> Prim2SF x = S754_nan.
Proof.
  unfold PrimFloat.is_nan. rewrite FloatAxioms.eqb_spec.
  destruct (Prim2SF x) as [s|s| |s m e]; simpl.
  - split; discriminate.
  - destruct s; split; discriminate.
  - split; reflexivity.
  - unfold SFeqb, SFcompare. rewrite Z.compare_refl, Pos.compare_cont_refl.
    destruct s; split; discriminate.
Qed.

Lemma not_nan_spec (x : float) :
  PrimFloat.is_nan x = false -> Prim2SF x <> S754_nan.
Proof. intros Hx Hnan. apply is_nan_spec in Hnan. congruence. Qed.

End NumericOrder.

Section TypedColumns.
Context `{Host}.

Lemma number_sign (x y : float) :
  sign_of (compareValues (VNumber x) (VNumber y))
  = if PrimFloat.eqb x y then Eq else if PrimFloat.ltb x y then Lt else Gt.
Proof.
  unfold compareValues. simpl.
  destruct (PrimFloat.eqb x y); [reflexivity|].
  destruct (PrimFloat.ltb x y); reflexivity.
Qed.

Lemma number_never_nan (x y : float) :
  PrimFloat.is_nan (compareValues (VNumber x) (VNumber y)) = false.
Proof.
  unfold compareValues. simpl.
  destruct (PrimFloat.eqb x y); [reflexivity|].
  destruct (PrimFloat.ltb x y); reflexivity.
Qed.

Lemma number_order (x y : float) :
  PrimFloat.is_nan x = false -> PrimFloat.is_nan y = false ->
  sign_of (compareValues (VNumber x) (VNumber y))
  = lex3 (order_key (Prim2SF x)) (order_key (Prim2SF y)).
Proof.
  intros Hx Hy. rewrite number_sign.
  rewrite FloatAxioms.eqb_spec, ltb_spec. unfold SFeqb, SFltb.
  rewrite (SFcompare_key (not_nan_spec x Hx) (not_nan_spec y Hy)).
  destruct (lex3 _ _); reflexivity.
Qed.

(** X12: on numbers other than [NaN] the comparator is the numeric order: its
    sign is negative exactly when [a < b], zero exactly when [a == b] (so
    [+0] and [-0] tie), positive exactly when [a > b], and swapping the
    arguments swaps the sign. *)
Theorem numbers_in_numeric_order (x y : float)
    (Hx : PrimFloat.is_nan x = false) (Hy : PrimFloat.is_nan y = false) :
  (sign_of (compareValues (VNumber x) (VNumber y)) = Lt
   <-> PrimFloat.ltb x y = true)
  /\ (sign_of (compareValues (VNumber x) (VNumber y)) = Eq
      <-> PrimFloat.eqb x y = true)
  /\ (sign_of (compareValues (VNumber x) (VNumber y)) = Gt
      <-> PrimFloat.ltb y x = true)
  /\ sign_of (compareValues (VNumber y) (VNumber x))
     = CompOpp (sign_of (compareValues (VNumber x) (VNumber y))).
Proof.
  rewrite (number_order y x Hy Hx), (number_order x y Hx Hy), lex3_antisym.
  rewrite FloatAxioms.eqb_spec, !ltb_spec. unfold SFeqb, SFltb.
  rewrite (SFcompare_key (not_nan_spec x Hx) (not_nan_spec y Hy)).
  rewrite (SFcompare_key (not_nan_spec y Hy) (not_nan_spec x Hx)), lex3_antisym.
  destruct (lex3 (order_key (Prim2SF x)) (order_key (Prim2SF y)));
    simpl; repeat split; congruence.
Qed.

Lemma nan_compares_one (x y : float) :
  PrimFloat.is_nan x = true ->
  compareValues (VNumber x) (VNumber y) = 1%float
  /\ compareValues (VNumber y) (VNumber x) = 1%float.
Proof.
  intros Hnan. apply is_nan_spec in Hnan.
  assert (PrimFloat.eqb x y = false /\ PrimFloat.ltb x y = false
          /\ PrimFloat.eqb y x = false /\ PrimFloat.ltb y x = false)
    as [E1 [L1 [E2 L2]]].
  { rewrite !FloatAxioms.eqb_spec, !ltb_spec, Hnan.
    unfold SFeqb, SFltb. simpl.
    destruct (Prim2SF y); repeat split; reflexivity. }
  unfold compareValues. simpl. rewrite E1, L1, E2, L2. split; reflexivity.
Qed.

(** X13: a row whose cell is [NaN] compares as after every row with a number,
    itself included, from either side (the comparator answers 1 both
    ways), so on a column that holds a [NaN] the comparator is not
    consistent and the language leaves the sorted order to the engine. *)
Theorem nan_breaks_consistency (k : string) (S : list Row) (row : Row)
    (x : float)
    (Hin : In row S) (Hget : get row k = VNumber x)
    (Hnan : PrimFloat.is_nan x = true) :
  (forall other y, get other k = VNumber y ->
     rowComparator k asc row other = 1%float
     /\ rowComparator k asc other row = 1%float)
  /\ ~ consistent_comparator (rowComparator k asc) S.
Proof.
  split.
  - intros other y Hy. unfold rowComparator. rewrite Hget, Hy.
    now apply nan_compares_one.
  - intros [_ [Hdual _]]. specialize (Hdual row row Hin Hin).
    unfold order_of, rowComparator in Hdual. rewrite Hget in Hdual.
    destruct (nan_compares_one x x Hnan) as [Hone _].
    rewrite Hone in Hdual. discriminate Hdual.
Qed.

Lemma number_column_consistent (k : string) (S : list Row) :
  number_column k S -> consistent_comparator (rowComparator k asc) S.
Proof.
  intros Hnum. split; [|split].
  - intros a b Ha Hb. unfold rowComparator.
    destruct (Hnum a Ha) as [x [-> _]]. destruct (Hnum b Hb) as [y [-> _]].
    apply number_never_nan.
  - intros a b Ha Hb. unfold order_of, rowComparator.
    destruct (Hnum a Ha) as [x [-> Hx]]. destruct (Hnum b Hb) as [y [-> Hy]].
    rewrite !number_order by assumption. apply lex3_antisym.
  - intros a b c Ha Hb Hc. unfold order_of, rowComparator.
    destruct (Hnum a Ha) as [x [-> Hx]]. destruct (Hnum b Hb) as [y [-> Hy]].
    destruct (Hnum c Hc) as [z [-> Hz]].
    rewrite !number_order by assumption. apply lex3_trans.
Qed.

Lemma StronglySorted_weaken_in (A : Type) (R R' : A -> A -> Prop)
    (P : A -> Prop) (l : list A) :
  (forall a b, P a -> P b -> R a b -> R' a b) ->
  Forall P l -> StronglySorted R l -> StronglySorted R' l.
Proof.
  intros Himp HP Hs. induction Hs as [|a l Hs IH Hall]; [constructor|].
  inversion HP as [|? ? Pa HP']; subst.
  constructor; [now apply IH|].
  rewrite Forall_forall in *. intros b Hb. apply Himp; auto.
Qed.

Lemma number_le (x y : float) :
  PrimFloat.is_nan x = false -> PrimFloat.is_nan y = false ->
  sign_of (compareValues (VNumber x) (VNumber y)) <> Gt ->
  PrimFloat.leb x y = true.
Proof.
  intros Hx Hy. rewrite (number_order x y Hx Hy), leb_spec. unfold SFleb.
  rewrite (SFcompare_key (not_nan_spec x Hx) (not_nan_spec y Hy)).
  destruct (lex3 _ _); congruence.
Qed.

(** X14: on a host whose [sort] conforms, a column of numbers without [NaN]
    sorts numerically: the ascending view is in non-decreasing order, the
    descending view in non-increasing order, and the ascending view
    reversed agrees with the descending one row by row up to ties. *)
Theorem numeric_column_sorts (S : list Row) (k : string)
    (Hsort : sort_conforms Array_sort) (Hkey : k <> "")
    (Hnum : number_column k S) :
  StronglySorted
    (fun a b => exists x y, get a k = VNumber x /\ get b k = VNumber y
                            /\ PrimFloat.leb x y = true)
    (sortedRows S (Some k) (Some asc))
  /\ StronglySorted
       (fun a b => exists x y, get a k = VNumber x /\ get b k = VNumber y
                               /\ PrimFloat.leb y x = true)
       (sortedRows S (Some k) (Some desc))
  /\ Forall2 (tied k) (rev (sortedRows S (Some k) (Some asc)))
                      (sortedRows S (Some k) (Some desc)).
Proof.
  pose proof (number_column_consistent Hnum) as Hcons.
  assert (consistent_comparator (rowComparator k desc) S) as Hcons'.
  { apply consistent_negated with (ascending := rowComparator k asc);
      [apply desc_negates_asc | apply desc_nan_as_asc | exact Hcons]. }
  rewrite !sortedRows_sorts by exact Hkey.
  assert (forall d, Forall (fun a => In a S) (Array_sort (rowComparator k d) S))
    as Hmem.
  { intros d. apply Forall_forall. intros a Ha.
    exact (Permutation_in a (proj1 (Hsort Row (rowComparator k d) S)) Ha). }
  split; [|split].
  - apply StronglySorted_weaken_in
      with (R := fun a b => order_of (rowComparator k asc) a b <> Gt)
           (P := fun a => In a S);
      [| apply Hmem | exact (proj2 (Hsort Row (rowComparator k asc) S) Hcons)].
    intros a b Ha Hb Hab. destruct (Hnum a Ha) as [x [Hxa Hx]].
    destruct (Hnum b Hb) as [y [Hyb Hy]]. exists x, y.
    split; [exact Hxa|]. split; [exact Hyb|].
    unfold order_of, rowComparator in Hab. rewrite Hxa, Hyb in Hab.
    now apply number_le.
  - apply StronglySorted_weaken_in
      with (R := fun a b => order_of (rowComparator k desc) a b <> Gt)
           (P := fun a => In a S);
      [| apply Hmem | exact (proj2 (Hsort Row (rowComparator k desc) S) Hcons')].
    intros a b Ha Hb Hab. destruct (Hnum a Ha) as [x [Hxa Hx]].
    destruct (Hnum b Hb) as [y [Hyb Hy]]. exists x, y.
    split; [exact Hxa|]. split; [exact Hyb|].
    rewrite desc_negates_asc in Hab.
    destruct Hcons as [_ [Hdual _]]. specialize (Hdual b a Hb Ha).
    unfold order_of, rowComparator in Hab, Hdual. rewrite Hxa, Hyb in Hab, Hdual.
    apply number_le; try assumption.
    rewrite Hdual, CompOpp_involutive in Hab. exact Hab.
  - apply reversed_ascending_ties_descending
      with (ascending := rowComparator k asc) (descending := rowComparator k desc);
      [exact Hsort | apply desc_negates_asc | apply desc_nan_as_asc | exact Hcons].
Qed.

Lemma string_sign (L : list string) (s t : string) :
  consistent (order_of localeCompare) L -> In s L -> In t L ->
  sign_of (compareValues (VString s) (VString t)) = order_of localeCompare s t.
Proof.
  intros Hcons Hs Ht. unfold compareValues. simpl.
  destruct (String.eqb s t) eqn:E; [|reflexivity].
  apply String.eqb_eq in E. subst t.
  symmetry. exact (consistent_refl Hcons s Hs).
Qed.

(** X15: a column of strings sorts as well as the host collates: where
    [localeCompare] is a consistent comparator on the strings of the
    column, so is the table's comparator on its rows. *)
Theorem string_column_consistent (S : list Row) (k : string)
    (Hstr : string_column k S)
    (Hlocale : consistent_comparator localeCompare
                 (map (fun row => string_of (get row k)) S)) :
  consistent_comparator (rowComparator k asc) S.
Proof.
  destruct Hlocale as [Hnum Hcons].
  assert (forall a, In a S ->
            exists s, get a k = VString s
                      /\ In s (map (fun row => string_of (get row k)) S)) as Hmem.
  { intros a Ha. destruct (Hstr a Ha) as [s Hs]. exists s. split; [exact Hs|].
    apply in_map_iff. exists a. rewrite Hs. now split. }
  assert (forall a b, In a S -> In b S ->
            order_of (rowComparator k asc) a b
            = order_of localeCompare (string_of (get a k)) (string_of (get b k)))
    as Hsame.
  { intros a b Ha Hb. destruct (Hmem a Ha) as [s [Hs Hsin]].
    destruct (Hmem b Hb) as [t [Ht Htin]].
    unfold order_of at 1. unfold rowComparator. rewrite Hs, Ht. simpl.
    now apply string_sign with (L := map (fun row => string_of (get row k)) S). }
  assert (forall a, In a S ->
            In (string_of (get a k)) (map (fun row => string_of (get row k)) S))
    as Hin
    by (intros a Ha; exact (in_map (fun row => string_of (get row k)) S a Ha)).
  split; [|split].
  - intros a b Ha Hb. destruct (Hmem a Ha) as [s [Hs Hsin]].
    destruct (Hmem b Hb) as [t [Ht Htin]].
    unfold rowComparator, compareValues. rewrite Hs, Ht. simpl.
    destruct (String.eqb s t); [reflexivity | now apply Hnum].
  - intros a b Ha Hb. rewrite !Hsame by assumption.
    apply (proj1 Hcons); now apply Hin.
  - intros a b c Ha Hb Hc. rewrite !Hsame by assumption.
    apply (proj2 Hcons); now apply Hin.
Qed.

Lemma get_absent (row : Row) (k : string) :
  (forall v, ~ In (k, v) row) -> get row k = VUndefined.
Proof.
  induction row as [|[k' v] row IH]; intros Habs; simpl; [reflexivity|].
  destruct (String.eqb k' k) eqn:E.
  - apply String.eqb_eq in E. subst k'. exfalso. apply (Habs v). now left.
  - apply IH. intros w Hw. apply (Habs w). now right.
Qed.

(** X16: a row that lacks the sort key compares as before every row that has
    a value under it (after it when descending), and its cell renders as
    the empty text when the column has no renderer. *)
Theorem missing_key_first (k : string) (a b : Row) (column : Column)
    (Habsent : forall v, ~ In (k, v) a)
    (Hvalue : is_nullish (get b k) = false) :
  rowComparator k asc a b = (-1)%float
  /\ rowComparator k asc b a = 1%float
  /\ rowComparator k desc a b = 1%float
  /\ rowComparator k desc b a = (-1)%float
  /\ (key column = k -> render column = None ->
      renderCell column a = NodeText "").
Proof.
  pose proof (get_absent a k Habsent) as Ha.
  assert (compareValues VUndefined (get b k) = (-1)%float) as Hab.
  { unfold compareValues. destruct (get b k); try discriminate; reflexivity. }
  assert (compareValues (get b k) VUndefined = 1%float) as Hba.
  { unfold compareValues. destruct (get b k); try discriminate; reflexivity. }
  unfold rowComparator. rewrite Ha, Hab, Hba.
  repeat split; try reflexivity.
  intros Hk Hr. unfold renderCell. rewrite Hr, Hk, Ha. reflexivity.
Qed.

(** X17: [null] and [undefined] each compare as before the other, so on a
    column that holds both the comparator is not consistent. *)
Theorem null_beside_undefined (k : string) (S : list Row) (a b : Row)
    (Ha : In a S) (Hb : In b S)
    (Hnull : get a k = VNull) (Hundef : get b k = VUndefined) :
  rowComparator k asc a b = (-1)%float
  /\ rowComparator k asc b a = (-1)%float
  /\ ~ consistent_comparator (rowComparator k asc) S.
Proof.
  assert (rowComparator k asc a b = (-1)%float
          /\ rowComparator k asc b a = (-1)%float) as [Hab Hba]
    by (unfold rowComparator; rewrite Hnull, Hundef; split; reflexivity).
  split; [exact Hab|]. split; [exact Hba|].
  intros [_ [Hdual _]]. specialize (Hdual a b Ha Hb).
  unfold order_of in Hdual. rewrite Hab, Hba in Hdual. discriminate Hdual.
Qed.

End TypedColumns.

(* ================================================================== *)
(** ** The set of selected indices *)

Section NumSetFacts.

Lemma set_has_In (i : nat) (s : NumSet) : set_has i s = true <-> In i s.
Proof.
  unfold set_has. rewrite existsb_exists. split.
  - intros [j [Hj Hij]]. apply Nat.eqb_eq in Hij. now subst.
  - intros Hi. exists i. split; [exact Hi | apply Nat.eqb_refl].
Qed.

Lemma set_has_false (i : nat) (s : NumSet) : set_has i s = false <-> ~ In i s.
Proof.
  rewrite <- set_has_In. destruct (set_has i s); split; congruence.
Qed.

Lemma In_set_add (j i : nat) (s : NumSet) :
  In j (set_add i s) <-> j = i \/ In j s.
Proof.
  unfold set_add. destruct (set_has i s) eqn:E.
  - apply set_has_In in E. split; [now right | intros [-> | Hj]; assumption].
  - rewrite in_app_iff. simpl. intuition.
Qed.

Lemma In_set_delete (j i : nat) (s : NumSet) :
  In j (set_delete i s) <-> j <> i /\ In j s.
Proof.
  unfold set_delete. rewrite filter_In, negb_true_iff, Nat.eqb_neq.
  intuition.
Qed.

Lemma set_has_add (j i : nat) (s : NumSet) :
  set_has j (set_add i s) = Nat.eqb j i || set_has j s.
Proof.
  destruct (set_has j (set_add i s)) eqn:E; symmetry.
  - apply set_has_In, In_set_add in E. apply orb_true_iff.
    destruct E as [-> | Hj]; [left; apply Nat.eqb_refl | right; now apply set_has_In].
  - apply orb_false_iff. apply set_has_false in E. split.
    + apply Nat.eqb_neq. intros ->. apply E, In_set_add. now left.
    + apply set_has_false. intros Hj. apply E, In_set_add. now right.
Qed.

Lemma set_has_delete (j i : nat) (s : NumSet) :
  set_has j (set_delete i s) = negb (Nat.eqb j i) && set_has j s.
Proof.
  destruct (set_has j (set_delete i s)) eqn:E; symmetry.
  - apply set_has_In, In_set_delete in E. destruct E as [Hne Hj].
    apply andb_true_iff. split.
    + apply negb_true_iff. now apply Nat.eqb_neq.
    + now apply set_has_In.
  - apply set_has_false in E. apply andb_false_iff.
    destruct (Nat.eqb j i) eqn:Eji; [now left|]. right.
    apply set_has_false. intros Hj. apply E, In_set_delete.
    apply Nat.eqb_neq in Eji. now split.
Qed.

Lemma NoDup_set_add (i : nat) (s : NumSet) : NoDup s -> NoDup (set_add i s).
Proof.
  intros Hs. unfold set_add. destruct (set_has i s) eqn:E; [exact Hs|].
  apply set_has_false in E.
  apply NoDup_app; [exact Hs | repeat constructor; intros [] |].
  intros j Hj [<- | []]. contradiction.
Qed.

Lemma NoDup_set_delete (i : nat) (s : NumSet) : NoDup s -> NoDup (set_delete i s).
Proof. intros Hs. unfold set_delete. now apply NoDup_filter. Qed.

Lemma nth_error_indices (A : Type) (l : list A) :
  map (nth_error l) (seq 0 (List.length l)) = map Some l.
Proof.
  induction l as [|x l IH]; [reflexivity|].
  simpl. f_equal. rewrite <- seq_shift, map_map. exact IH.
Qed.

End NumSetFacts.

(* ================================================================== *)
(** ** What the handlers leave alone, and what they report *)

Section Handlers.
Context `{Host}.

Variable p : Props.

Lemma handleSort_frame (st : TableState) (k : string) :
  selectedRows (fst (handleSort p st k)) = selectedRows st
  /\ existsb is_selection_notice (snd (handleSort p st k)) = false.
Proof.
  unfold handleSort.
  destruct (find _ _) as [column|]; [|split; reflexivity].
  destruct (negb _); [split; reflexivity|]. simpl.
  destruct (sortKey st) as [k'|]; [destruct (String.eqb k' k)|];
    try destruct (sortDirection st) as [[|]|];
    destruct (onSort p); split; reflexivity.
Qed.

Lemma clickHeader_frame (st : TableState) (column : Column) :
  selectedRows (fst (clickHeader p st column)) = selectedRows st
  /\ existsb is_selection_notice (snd (clickHeader p st column)) = false.
Proof.
  unfold clickHeader. destruct (flag_truthy (sortable column));
    [apply handleSort_frame | split; reflexivity].
Qed.

Lemma keyDownHeader_frame (st : TableState) (column : Column) (pressed : string) :
  selectedRows (fst (keyDownHeader p st column pressed)) = selectedRows st
  /\ existsb is_selection_notice (snd (keyDownHeader p st column pressed)) = false.
Proof.
  unfold keyDownHeader. destruct (_ && _);
    [apply handleSort_frame | split; reflexivity].
Qed.

Lemma handleRowSelect_frame (st : TableState) (index : nat) (b : bool) :
  sortKey (fst (handleRowSelect p st index b)) = sortKey st
  /\ sortDirection (fst (handleRowSelect p st index b)) = sortDirection st
  /\ sortedData p (fst (handleRowSelect p st index b)) = sortedData p st
  /\ existsb (fun n => negb (is_selection_notice n))
             (snd (handleRowSelect p st index b)) = false.
Proof.
  unfold handleRowSelect. simpl. destruct (onRowSelect p); repeat split.
Qed.

(** X2: a sort request, made through [handleSort], a header click or a header
    key, never changes the selection and never calls [onRowSelect]: the
    selected indices stay as they are while the rows under them move. *)
Theorem sorting_keeps_selection (st : TableState) (k : string)
    (column : Column) (pressed : string) :
  (selectedRows (fst (handleSort p st k)) = selectedRows st
   /\ existsb is_selection_notice (snd (handleSort p st k)) = false)
  /\ (selectedRows (fst (clickHeader p st column)) = selectedRows st
      /\ existsb is_selection_notice (snd (clickHeader p st column)) = false)
  /\ (selectedRows (fst (keyDownHeader p st column pressed)) = selectedRows st
      /\ existsb is_selection_notice
           (snd (keyDownHeader p st column pressed)) = false).
Proof.
  split; [apply handleSort_frame|].
  split; [apply clickHeader_frame | apply keyDownHeader_frame].
Qed.

(** X3: selecting, through [handleRowSelect], a row checkbox or select-all,
    never touches the sort cells, so the view stays the same, and never
    calls [onSort]. *)
Theorem selecting_keeps_view (st : TableState) (index : nat) (b : bool) :
  (sortKey (fst (handleRowSelect p st index b)) = sortKey st
   /\ sortDirection (fst (handleRowSelect p st index b)) = sortDirection st
   /\ sortedData p (fst (handleRowSelect p st index b)) = sortedData p st
   /\ existsb (fun n => negb (is_selection_notice n))
              (snd (handleRowSelect p st index b)) = false)
  /\ (sortKey (fst (handleSelectAll p st)) = sortKey st
      /\ sortDirection (fst (handleSelectAll p st)) = sortDirection st
      /\ sortedData p (fst (handleSelectAll p st)) = sortedData p st
      /\ existsb (fun n => negb (is_selection_notice n))
                 (snd (handleSelectAll p st)) = false).
Proof.
  split; [apply handleRowSelect_frame|].
  unfold handleSelectAll. simpl. destruct (onRowSelect p); repeat split.
Qed.

Lemma clickRow_flips (st : TableState) (index j : nat) :
  set_has j (selectedRows (fst (clickRow p st index)))
  = if Nat.eqb j index then negb (set_has index (selectedRows st))
    else set_has j (selectedRows st).
Proof.
  unfold clickRow, handleRowSelect. simpl.
  destruct (set_has index (selectedRows st)) eqn:E; simpl.
  - rewrite set_has_delete. destruct (Nat.eqb j index); reflexivity.
  - rewrite set_has_add. destruct (Nat.eqb j index); reflexivity.
Qed.

Lemma clickRow_size (st : TableState) (index : nat) :
  NoDup (selectedRows st) ->
  set_size (selectedRows (fst (clickRow p st index)))
  = if set_has index (selectedRows st)
    then set_size (selectedRows st) - 1
    else set_size (selectedRows st) + 1.
Proof.
  intros Hnd. unfold clickRow, handleRowSelect, set_size. simpl.
  destruct (set_has index (selectedRows st)) eqn:E; simpl.
  - apply set_has_In in E. apply in_split in E. destruct E as [l1 [l2 E]].
    rewrite E in *. apply NoDup_remove in Hnd. destruct Hnd as [_ Hout].
    unfold set_delete. rewrite filter_app. simpl. rewrite Nat.eqb_refl. simpl.
    assert (forall l, ~ In index l ->
              filter (fun j => negb (Nat.eqb index j)) l = l) as Hkeep.
    { intros l Hl. apply (set_delete_absent index l). now apply set_has_false. }
    rewrite !Hkeep by (intros Hin; apply Hout, in_or_app; tauto).
    rewrite !length_app. simpl. lia.
  - unfold set_add. rewrite E, length_app. reflexivity.
Qed.

(** X4: a click on the checkbox of row [index] flips the membership of
    [index] and of nothing else; two clicks on the same checkbox leave
    every row as it was, selected or not, and the selection as large as it
    was. *)
Theorem clickRow_twice (st : TableState) (index : nat)
    (Hset : NoDup (selectedRows st)) :
  let st2 := fst (clickRow p (fst (clickRow p st index)) index) in
  (forall j, set_has j (selectedRows (fst (clickRow p st index)))
             = if Nat.eqb j index then negb (set_has index (selectedRows st))
               else set_has j (selectedRows st))
  /\ (forall j, set_has j (selectedRows st2) = set_has j (selectedRows st))
  /\ set_size (selectedRows st2) = set_size (selectedRows st).
Proof.
  cbv zeta. split; [intros j; apply clickRow_flips|]. split.
  - intros j. rewrite !clickRow_flips. rewrite Nat.eqb_refl.
    destruct (Nat.eqb j index) eqn:E; [|reflexivity].
    apply Nat.eqb_eq in E. subst j. apply negb_involutive.
  - assert (NoDup (selectedRows (fst (clickRow p st index)))) as Hnd1.
    { unfold clickRow, handleRowSelect. simpl.
      destruct (set_has index (selectedRows st));
        [now apply NoDup_set_delete | now apply NoDup_set_add]. }
    rewrite (clickRow_size _ _ Hnd1), clickRow_flips, Nat.eqb_refl.
    rewrite (clickRow_size _ _ Hset).
    destruct (set_has index (selectedRows st)) eqn:E; simpl; [|lia].
    apply set_has_In in E. unfold set_size.
    destruct (selectedRows st); [contradiction | simpl; lia].
Qed.

(** X5: with [onRowSelect] supplied, select-all reports the whole current
    view, every row once and in view order, and deselect-all reports the
    empty list. *)
Theorem selectAll_reports_view (st : TableState)
    (Hcallback : onRowSelect p = true) :
  snd (handleSelectAll p st)
  = [SelectionChanged
       (if Nat.eqb (set_size (selectedRows st)) (List.length (sortedData p st))
        then [] else map Some (sortedData p st))].
Proof.
  unfold handleSelectAll. rewrite Hcallback. cbv zeta.
  destruct (Nat.eqb _ _); simpl; [reflexivity|].
  rewrite add_all_indices. unfold materialize.
  now rewrite nth_error_indices.
Qed.

(** X6: with [onRowSelect] supplied, a row toggle reports one entry per
    selected index, in the order the indices were selected; an index
    inside the view reports the row at that place of the current view, an
    index outside it reports [undefined]. *)
Theorem rowSelect_reports_rows (st : TableState) (index : nat) (b : bool)
    (Hcallback : onRowSelect p = true) :
  exists rows,
    snd (handleRowSelect p st index b) = [SelectionChanged rows]
    /\ List.length rows = set_size (selectedRows (fst (handleRowSelect p st index b)))
    /\ (forall n i, nth_error (selectedRows (fst (handleRowSelect p st index b))) n
                    = Some i ->
          nth_error rows n = Some (nth_error (sortedData p st) i))
    /\ (forall n i, nth_error (selectedRows (fst (handleRowSelect p st index b))) n
                    = Some i ->
          List.length (sortedData p st) <= i -> nth_error rows n = Some None).
Proof.
  unfold handleRowSelect. rewrite Hcallback. simpl.
  eexists. split; [reflexivity|]. unfold materialize, set_size.
  split; [apply length_map|]. split.
  - intros n i Hn. now rewrite nth_error_map, Hn.
  - intros n i Hn Hout. rewrite nth_error_map, Hn. simpl. f_equal.
    now apply nth_error_None.
Qed.

(** X7: after [handleSelectAll] the summary is never PARTIAL: it is ALL when
    rows were selected and NONE when the selection was cleared or the view
    is empty. *)
Theorem selectAll_then_summary (st : TableState) :
  selectAllState p (fst (handleSelectAll p st))
  = if Nat.eqb (set_size (selectedRows st)) (List.length (sortedData p st))
       || Nat.eqb (List.length (sortedData p st)) 0
    then SelNone else SelAll.
Proof.
  unfold selectAllState.
  rewrite handleSelectAll_keeps_sort, sortedData_withSelection.
  rewrite handleSelectAll_selection. simpl selectedRows.
  destruct (Nat.eqb (set_size (selectedRows st)) _) eqn:E; simpl; [reflexivity|].
  unfold set_size. rewrite length_seq.
  destruct (Nat.eqb (List.length (sortedData p st)) 0); [reflexivity|].
  now rewrite Nat.eqb_refl.
Qed.

End Handlers.

(* ================================================================== *)
(** ** Invariants of a mounted table *)

Section Invariants.
Context `{Host}.

Variable o : Options.
Variable p : Props.

Lemma handleSort_cells_wf (st : TableState) (k : string) :
  sort_cells_wf p st -> sort_cells_wf p (fst (handleSort p st k)).
Proof.
  intros Hwf. unfold handleSort.
  destruct (find (fun col => String.eqb (key col) k) (columns p))
    as [column|] eqn:Hfind; [|exact Hwf].
  destruct (sortable column) as [[|]|] eqn:Hs; simpl; try exact Hwf.
  assert (forall d, sort_cells_wf p
            {| sortKey := Some k; sortDirection := Some d;
               selectedRows := selectedRows st |}) as Hsome.
  { intros d. right. exists k, d, column. repeat split; assumption. }
  assert (sort_cells_wf p
            {| sortKey := None; sortDirection := None;
               selectedRows := selectedRows st |}) as Hnone
    by (left; split; reflexivity).
  destruct (sortKey st) as [k'|]; [|apply Hsome].
  destruct (String.eqb k' k); [|apply Hsome].
  destruct (sortDirection st) as [[|]|]; [apply Hsome | exact Hnone | apply Hsome].
Qed.

Lemma dispatch_cells_wf (st : TableState) (ev : Event) :
  sort_cells_wf p st -> sort_cells_wf p (fst (dispatch p st ev)).
Proof.
  intros Hwf. destruct ev as [column | column pressed | | index]; simpl.
  - unfold clickHeader. destruct (flag_truthy _);
      [now apply handleSort_cells_wf | exact Hwf].
  - unfold keyDownHeader. destruct (_ && _);
      [now apply handleSort_cells_wf | exact Hwf].
  - exact Hwf.
  - exact Hwf.
Qed.

(** X1: in every state a mounted table reaches, the two sort cells agree:
    both are empty, or the direction is set and the key is that of a
    column the table resolves to a sortable one. *)
Theorem sort_cells_agree (st : TableState) (Hreach : reachable o p st) :
  (sortKey st = None <-> sortDirection st = None)
  /\ (forall k, sortKey st = Some k ->
        exists column, resolves p k column /\ sortable column = Some true).
Proof.
  assert (sort_cells_wf p st) as Hwf.
  { induction Hreach as [|st ev _ IH _];
      [left; split; reflexivity | now apply dispatch_cells_wf]. }
  destruct Hwf as [[Hk Hd] | [k [d [column [Hk [Hd [Hres Hs]]]]]]].
  - split; [split; intros _; assumption|]. intros k Hk'. congruence.
  - split; [split; intros Hn; congruence|].
    intros k' Hk'. assert (k' = k) as -> by congruence.
    exists column. split; [exact Hres | exact Hs].
Qed.

Hypothesis Hsort : sort_conforms Array_sort.

Lemma sortedData_length (st : TableState) :
  List.length (sortedData p st) = List.length (data p).
Proof. apply Permutation_length. unfold sortedData. now apply sortedRows_perm. Qed.

Lemma dispatch_selection_wf (st : TableState) (ev : Event) :
  offered o p st ev -> selection_wf p st -> selection_wf p (fst (dispatch p st ev)).
Proof.
  intros [_ [_ Hev]] [Hnd Hin].
  destruct ev as [column | column pressed | | index].
  - destruct (clickHeader_frame p st column) as [Hsel _].
    unfold selection_wf. simpl dispatch. rewrite Hsel. now split.
  - destruct (keyDownHeader_frame p st column pressed) as [Hsel _].
    unfold selection_wf. simpl dispatch. rewrite Hsel. now split.
  - unfold selection_wf. simpl dispatch. rewrite handleSelectAll_selection.
    destruct (Nat.eqb _ _).
    + split; [constructor | intros i []].
    + split; [apply seq_NoDup|]. intros i Hi. apply in_seq in Hi.
      rewrite sortedData_length in Hi. lia.
  - destruct Hev as [_ Hindex]. rewrite sortedData_length in Hindex.
    unfold selection_wf. simpl.
    destruct (set_has index (selectedRows st)); simpl.
    + split; [now apply NoDup_set_delete|].
      intros i Hi. apply In_set_delete in Hi. now apply Hin.
    + split; [now apply NoDup_set_add|].
      intros i Hi. apply In_set_add in Hi. destruct Hi as [-> | Hi];
        [exact Hindex | now apply Hin].
Qed.

Lemma reachable_selection_wf (st : TableState) :
  reachable o p st -> selection_wf p st.
Proof.
  induction 1 as [|st ev _ IH Hev].
  - split; [constructor | intros i []].
  - now apply dispatch_selection_wf.
Qed.

(** X8: on a host whose [sort] conforms, in every state a mounted table
    reaches the selection holds no index twice and only indices of rows of
    the view, so it is never larger than the view. *)
Theorem selection_within_view (st : TableState) (Hreach : reachable o p st) :
  NoDup (selectedRows st)
  /\ (forall i, In i (selectedRows st) -> i < List.length (sortedData p st))
  /\ set_size (selectedRows st) <= List.length (sortedData p st).
Proof.
  destruct (reachable_selection_wf Hreach) as [Hnd Hin].
  rewrite sortedData_length. split; [exact Hnd|]. split; [exact Hin|].
  unfold set_size. rewrite <- (length_seq (List.length (data p)) 0).
  apply NoDup_incl_length; [exact Hnd|].
  intros i Hi. apply in_seq. specialize (Hin i Hi). lia.
Qed.

(** X9: on a host whose [sort] conforms, in every state a mounted table
    reaches the summary means what it says: ALL exactly when the view has
    rows and every one of them is selected, NONE exactly when no row is
    selected. *)
Theorem summary_is_sound (st : TableState) (Hreach : reachable o p st) :
  (selectAllState p st = SelAll
   <-> sortedData p st <> []
       /\ forall i, i < List.length (sortedData p st) ->
                    set_has i (selectedRows st) = true)
  /\ (selectAllState p st = SelNone
      <-> forall i, set_has i (selectedRows st) = false).
Proof.
  destruct (reachable_selection_wf Hreach) as [Hnd Hin].
  unfold selectAllState, set_size. rewrite sortedData_length.
  set (N := List.length (data p)).
  assert (sortedData p st <> [] <-> N <> 0) as Hrows.
  { unfold N. rewrite <- (sortedData_length st).
    destruct (sortedData p st); simpl; split; congruence. }
  rewrite Hrows. split.
  - destruct (Nat.eqb (List.length (selectedRows st)) 0) eqn:E0.
    + apply Nat.eqb_eq in E0. split; [discriminate|]. intros [HN Hall].
      destruct N as [|N']; [congruence|].
      specialize (Hall 0 (Nat.lt_0_succ N')). apply set_has_In in Hall.
      destruct (selectedRows st); [contradiction | discriminate].
    + apply Nat.eqb_neq in E0.
      destruct (Nat.eqb (List.length (selectedRows st)) N) eqn:EN.
      * apply Nat.eqb_eq in EN. split; [intros _ | reflexivity].
        split; [lia|]. intros i Hi. apply set_has_In.
        apply (NoDup_length_incl (l := selectedRows st) (l' := seq 0 N)).
        -- exact Hnd.
        -- rewrite length_seq. lia.
        -- intros j Hj. apply in_seq. specialize (Hin j Hj). fold N in Hin. lia.
        -- apply in_seq. lia.
      * apply Nat.eqb_neq in EN. split; [discriminate|]. intros [_ Hall].
        exfalso. apply EN. apply Nat.le_antisymm.
        -- rewrite <- (length_seq N 0). apply NoDup_incl_length; [exact Hnd|].
           intros j Hj. apply in_seq. specialize (Hin j Hj). fold N in Hin. lia.
        -- rewrite <- (length_seq N 0) at 1.
           apply NoDup_incl_length; [apply seq_NoDup|].
           intros j Hj. apply in_seq in Hj. apply set_has_In, Hall. lia.
  - destruct (Nat.eqb (List.length (selectedRows st)) 0) eqn:E0.
    + apply Nat.eqb_eq in E0. split; [intros _ | reflexivity].
      intros i. destruct (selectedRows st); [reflexivity | discriminate].
    + apply Nat.eqb_neq in E0. split.
      * destruct (Nat.eqb _ N); discriminate.
      * intros Hnone. exfalso. apply E0.
        destruct (selectedRows st) as [|i s']; [reflexivity|].
        specialize (Hnone i). apply set_has_false in Hnone.
        exfalso. apply Hnone. now left.
Qed.

Lemma indexed_from_length (A : Type) (i : nat) (l : list A) :
  List.length (indexed_from i l) = List.length l.
Proof.
  revert i. induction l as [|x l IH]; intros i; simpl; [reflexivity|].
  now rewrite IH.
Qed.

(** X10: on a host whose [sort] conforms, the component shows the loading
    panel exactly while [loading] is set, the empty panel with the
    caller's message exactly when it is not loading and there is no input
    row, and the table otherwise; loading hides an empty table. *)
Theorem panels (st : TableState) :
  (renderTable o p st = LoadingView <-> loading o = true)
  /\ (renderTable o p st = EmptyView (emptyMessage o)
      <-> loading o = false /\ data p = [])
  /\ (loading o = false -> data p <> [] ->
      exists head body, renderTable o p st = TableView head body).
Proof.
  unfold renderTable. rewrite sortedData_length.
  destruct (loading o).
  - split; [split; reflexivity|]. split; [|discriminate].
    split; [discriminate | intros [Hl _]; discriminate].
  - destruct (data p) as [|row rows] eqn:Hdata; simpl.
    + split; [split; discriminate|]. split; [split; auto|].
      intros _ Hne. congruence.
    + split; [split; discriminate|]. split.
      * split; [discriminate | intros [_ Hnil]; discriminate].
      * intros _ _. eexists. eexists. reflexivity.
Qed.

(** X11: the table is rectangular: one body row per row of the view, and in
    every body row as many cells as the header has, the columns plus the
    checkbox column of a selectable table. *)
Theorem table_rectangular (st : TableState) (head : list HeadCell)
    (body : list BodyRow)
    (Hshown : renderTable o p st = TableView head body) :
  List.length body = List.length (sortedData p st)
  /\ List.length head
     = (if selectable o then 1 else 0) + List.length (columns p)
  /\ Forall (fun r => List.length (cells r) = List.length head) body.
Proof.
  unfold renderTable in Hshown.
  destruct (loading o); [discriminate|].
  destruct (Nat.eqb _ 0); [discriminate|].
  injection Hshown as <- <-.
  rewrite length_map, indexed_from_length. split; [reflexivity|].
  assert (List.length (headRow o p st)
          = (if selectable o then 1 else 0) + List.length (columns p)) as Hhead.
  { unfold headRow. rewrite length_app, length_map.
    destruct (selectable o); reflexivity. }
  split; [exact Hhead|].
  apply Forall_forall. intros r Hr. apply in_map_iff in Hr.
  destruct Hr as [[i row] [<- _]]. simpl.
  rewrite Hhead, length_app, length_map. destruct (selectable o); reflexivity.
Qed.

End Invariants.

Section Indicators.
Context `{Host}.

Variable p : Props.

Lemma chevrons_of_state (k : string) (d : SortDirection) (s : NumSet)
    (column : Column) :
  sortable column = Some true ->
  chevrons {| sortKey := Some k; sortDirection := d; selectedRows := s |} column
  = lit (String.eqb k (key column) && direction_is d asc)
        (String.eqb k (key column) && direction_is d desc).
Proof. intros Hs. unfold chevrons. rewrite Hs. reflexivity. Qed.

(** X18: the chevrons follow the click cycle: after one click on a sortable
    column its up chevron alone is lit, after two its down chevron alone,
    after three neither; and whatever the state was, after a click on the
    column every sortable column with another key is unlit. *)
Theorem chevrons_follow_clicks (k : string) (column other : Column)
    (s : NumSet)
    (Hcol : resolves p k column) (Hsortable : sortable column = Some true)
    (Hother : key other <> k) (Hothers : sortable other = Some true) :
  chevrons (fst (clickHeader p (stateNONE s) column)) column = lit true false
  /\ chevrons (fst (clickHeader p (stateASC k s) column)) column = lit false true
  /\ chevrons (fst (clickHeader p (stateDESC k s) column)) column
     = lit false false
  /\ (forall st, chevrons (fst (clickHeader p st column)) other
                 = lit false false).
Proof.
  pose proof (resolves_key Hcol) as Hk.
  assert (forall st, clickHeader p st column = handleSort p st k) as Hclick.
  { intros st. rewrite clickHeader_sortable, Hk by exact Hsortable. reflexivity. }
  rewrite !Hclick, !(handleSort_sortable _ Hcol Hsortable). simpl.
  rewrite String.eqb_refl. simpl.
  unfold chevrons. rewrite Hsortable, Hothers, Hk. simpl.
  rewrite String.eqb_refl. simpl.
  split; [reflexivity|]. split; [reflexivity|]. split; [reflexivity|].
  intros st. rewrite Hclick, (handleSort_sortable _ Hcol Hsortable). cbv zeta.
  assert (String.eqb k (key other) = false) as Hne
    by (apply String.eqb_neq; congruence).
  destruct (sortKey st) as [k'|]; [destruct (String.eqb k' k)|];
    try destruct (sortDirection st) as [[|]|]; simpl; rewrite ?Hne; reflexivity.
Qed.

(** X19: on a host whose [sort] conforms the view is in every state a
    rearrangement of the input rows, none added, dropped or repeated, and
    it is the input itself whenever no direction is set or the key is
    absent or empty. *)
Theorem view_rearranges_input (st : TableState)
    (Hsort : sort_conforms Array_sort) :
  Permutation (sortedData p st) (data p)
  /\ List.length (sortedData p st) = List.length (data p)
  /\ (key_truthy (sortKey st) = false \/ sortDirection st = None ->
      sortedData p st = data p).
Proof.
  assert (Permutation (sortedData p st) (data p)) as Hperm
    by (unfold sortedData; now apply sortedRows_perm).
  split; [exact Hperm|]. split; [now apply Permutation_length|].
  intros Hoff. unfold sortedData. now apply sortedRows_unsorted.
Qed.

End Indicators.

(* ================================================================== *)
(** ** The properties at concrete inputs *)

Section Scenarios.

Local Existing Instance exampleHost.

Example sort_by_name_ascending :
  sortedRows [rowB; rowA] (Some "name") (Some asc) = [rowA; rowB].
Proof. vm_compute. reflexivity. Qed.

Example sort_by_name_descending :
  sortedRows [rowB; rowA] (Some "name") (Some desc) = [rowB; rowA].
Proof. vm_compute. reflexivity. Qed.

Example sort_identity (rows : list Row) : sortedRows rows None None = rows.
Proof. reflexivity. Qed.

Example example_number_strings :
  map numberToString [10; 1.5; -0.25; nan]%float = ["10"; "1.5"; "-0.25"; "NaN"].
Proof. vm_compute. reflexivity. Qed.

Lemma example_localeCompare_unit (s t : string) :
  in_unit_range (example_localeCompare s t).
Proof.
  unfold example_localeCompare, in_unit_range.
  destruct (String.compare s t); auto.
Qed.

Lemma click_cycle_witness :
  (resolves sampleProps "name" nameColumn /\ sortable nameColumn = Some true)
  /\ fst (clickHeader sampleProps (stateNONE [1]) nameColumn)
     = stateASC "name" [1].
Proof.
  split; [split; reflexivity|].
  exact (proj1 (@click_cycle exampleHost sampleProps "name" nameColumn [1]
                  eq_refl eq_refl)).
Defined.

Lemma summarize_tristate_witness :
  selectAllState sampleProps (withSelection initialState [1]) = SelPartial.
Proof.
  apply (summarize_tristate sampleProps (withSelection initialState [1])).
  simpl. lia.
Defined.

Lemma all_selected_by_size_witness :
  set_size [5; 7] = List.length (sortedData sampleProps (withSelection initialState [5; 7]))
  /\ selectedRows (fst (handleSelectAll sampleProps (withSelection initialState [5; 7]))) = []
  /\ selectAllState sampleProps (withSelection initialState [5; 7]) = SelAll.
Proof.
  split; [reflexivity|].
  destruct (all_selected_by_size sampleProps (withSelection initialState [5; 7]))
    as [Hclear Hall]; [reflexivity|].
  split; [exact Hclear | apply Hall; simpl; lia].
Defined.

Lemma toggle_twice_unselected_witness :
  set_has 1 [0] = false
  /\ fst (handleRowSelect sampleProps
            (fst (handleRowSelect sampleProps (withSelection initialState [0]) 1 true))
            1 false)
     = withSelection initialState [0].
Proof.
  split; [reflexivity|].
  apply (toggle_twice_unselected sampleProps (withSelection initialState [0]) 1).
  reflexivity.
Defined.

(** C8, as stated, fails on a row that is already selected: selecting it
    again and then deselecting it leaves it out of the selection. *)
Lemma toggle_twice_selected_differs :
  exists (p : Props) (st : TableState) (i : nat),
    forall h : Host,
      i < List.length (@sortedData h p st)
      /\ selectedRows
           (fst (@handleRowSelect h p
                   (fst (@handleRowSelect h p st i true)) i false))
         <> selectedRows st.
Proof.
  exists sampleProps, (withSelection initialState [0]), 0. intros h. split.
  - simpl. lia.
  - simpl. discriminate.
Qed.

Lemma sort_notification_witness :
  (onSort sampleProps = true /\ resolves sampleProps "name" nameColumn
   /\ sortable nameColumn = Some true)
  /\ snd (handleSort sampleProps initialState "name")
     = [SortChanged "name" asc].
Proof.
  split; [repeat split; reflexivity|].
  apply (@sort_notification sampleProps initialState "name" nameColumn);
    reflexivity.
Defined.

Lemma unsortable_click_ignored_witness :
  sortable idColumn <> Some true
  /\ clickHeader sampleProps (stateASC "name" []) idColumn
     = (stateASC "name" [], []).
Proof.
  split; [discriminate|].
  apply (unsortable_click_ignored sampleProps (stateASC "name" []) idColumn).
  discriminate.
Defined.

Lemma renderCell_dispatch_witness :
  renderCell nameColumn [("name", VNull)] = NodeText ""
  /\ renderCell nameColumn [("name", VBool true)] = NodeText "true".
Proof.
  split.
  - apply (renderCell_dispatch nameColumn [("name", VNull)]); reflexivity.
  - apply (proj1 (proj2 (proj2 (renderCell_dispatch nameColumn [("name", VBool true)])))
             true); reflexivity.
Defined.

Lemma compareValues_range_witness :
  (forall s t, in_unit_range (@localeCompare exampleHost s t))
  /\ in_unit_range (compareValues (VString "B") (VNumber 7)).
Proof.
  split; [exact example_localeCompare_unit|].
  apply (@compareValues_range exampleHost (VString "B") (VNumber 7));
    [exact example_localeCompare_unit | reflexivity].
Defined.

(** C5, as stated, fails on two dates five seconds apart: the comparator
    returns the difference of the time values, -5000. *)
Lemma compare_dates_outside_unit :
  exists a b : value,
    forall h : Host,
      @compareValues h a b = (-5000)%float
      /\ ~ in_unit_range (@compareValues h a b).
Proof.
  exists (VDate 1 0%float), (VDate 2 5000%float). intros h.
  assert (@compareValues h (VDate 1 0%float) (VDate 2 5000%float)
          = (-5000)%float) as -> by (vm_compute; reflexivity).
  split; [reflexivity|].
  intros [E | [E | E]]; revert E; apply float_neq; vm_compute; reflexivity.
Qed.

Lemma reversed_asc_is_desc_witness :
  (sort_conforms (@Array_sort exampleHost) /\ "name" <> ""
   /\ consistent_comparator (rowComparator "name" asc) [rowB; rowA])
  /\ Forall2 (tied "name")
       (rev (sortedRows [rowB; rowA] (Some "name") (Some asc)))
       (sortedRows [rowB; rowA] (Some "name") (Some desc)).
Proof.
  assert (consistent_comparator (rowComparator "name" asc) [rowB; rowA]) as Hcons.
  { apply consistent_comparatorb_sound. vm_compute. reflexivity. }
  split; [split; [exact insertion_sort_conforms | split; [discriminate | exact Hcons]]|].
  apply (@reversed_asc_is_desc exampleHost [rowB; rowA] "name");
    [exact insertion_sort_conforms | discriminate | exact Hcons].
Defined.

(** C4, as stated, fails for the key with the empty name: it is falsy, so
    the view is the input in both directions, and the reversed ascending
    view differs from the descending one in rows that do not tie. *)
Lemma reversal_fails_for_empty_key :
  exists (S : list Row) (k : string),
    forall h : Host,
      ~ Forall2 (fun a d => a = d \/ @tied h k a d)
          (rev (@sortedRows h S (Some k) (Some asc)))
          (@sortedRows h S (Some k) (Some desc)).
Proof.
  exists [unnamedFirst; unnamedSecond], "". intros h Hall.
  simpl in Hall. inversion Hall as [|? ? ? ? [Hsame | Htie] _]; subst.
  - discriminate Hsame.
  - vm_compute in Htie. discriminate Htie.
Qed.

(** With a [NaN] in a numeric column the comparator is not consistent, and
    a conforming sort, the insertion sort of [exampleHost], returns views
    that are not reverses of each other. *)
Lemma reversal_needs_consistency :
  sort_conforms (@Array_sort exampleHost)
  /\ consistent_comparatorb (rowComparator "score" asc) scoreRows = false
  /\ ~ Forall2 (fun a d => a = d \/ tied "score" a d)
         (rev (sortedRows scoreRows (Some "score") (Some asc)))
         (sortedRows scoreRows (Some "score") (Some desc)).
Proof.
  split; [exact insertion_sort_conforms|].
  split; [vm_compute; reflexivity|].
  remember (fun a d : Row => a = d \/ tied "score" a d) as R eqn:HR.
  intros Hall. vm_compute in Hall.
  inversion Hall as [|? ? ? ? Hfirst _]; subst.
  destruct Hfirst as [Hsame | Htie].
  - discriminate Hsame.
  - vm_compute in Htie. discriminate Htie.
Qed.

End Scenarios.

Section MoreScenarios.

Local Existing Instance exampleHost.

Lemma clickRow_twice_witness :
  NoDup [0]
  /\ set_size (selectedRows
       (fst (clickRow sampleProps
               (fst (clickRow sampleProps (withSelection initialState [0]) 0)) 0)))
     = 1.
Proof.
  assert (NoDup [0]) as Hnd by (constructor; [intros [] | constructor]).
  split; [exact Hnd|].
  exact (proj2 (proj2 (clickRow_twice sampleProps
                         (withSelection initialState [0]) 0 Hnd))).
Defined.

Lemma selectAll_reports_view_witness :
  onRowSelect sampleProps = true
  /\ snd (handleSelectAll sampleProps initialState)
     = [SelectionChanged [Some rowB; Some rowA]].
Proof.
  split; [reflexivity|].
  exact (selectAll_reports_view sampleProps initialState eq_refl).
Defined.

Lemma rowSelect_reports_rows_witness :
  onRowSelect sampleProps = true
  /\ exists rows,
       snd (handleRowSelect sampleProps initialState 1 true)
       = [SelectionChanged rows]
       /\ List.length rows = 1.
Proof.
  split; [reflexivity|].
  destruct (rowSelect_reports_rows sampleProps initialState 1 true eq_refl)
    as [rows [Hout [Hlen _]]].
  exists rows. split; [exact Hout | exact Hlen].
Defined.

Lemma sample_header_click_reachable :
  reachable selectableOptions sampleProps
    (fst (dispatch sampleProps initialState (HeaderClick nameColumn))).
Proof.
  apply reach_event; [apply reach_mount|].
  split; [reflexivity|]. split; [discriminate|]. simpl. tauto.
Qed.

Lemma sample_row_click_reachable :
  reachable selectableOptions sampleProps
    (fst (dispatch sampleProps initialState (RowClick 1))).
Proof.
  apply reach_event; [apply reach_mount|].
  split; [reflexivity|]. split; [discriminate|].
  split; [reflexivity | simpl; lia].
Qed.

Lemma sort_cells_agree_witness :
  reachable selectableOptions sampleProps
    (fst (dispatch sampleProps initialState (HeaderClick nameColumn)))
  /\ exists column,
       resolves sampleProps "name" column /\ sortable column = Some true.
Proof.
  split; [exact sample_header_click_reachable|].
  exact (proj2 (sort_cells_agree sample_header_click_reachable) "name" eq_refl).
Defined.

Lemma selection_within_view_witness :
  (sort_conforms (@Array_sort exampleHost)
   /\ reachable selectableOptions sampleProps
        (fst (dispatch sampleProps initialState (RowClick 1))))
  /\ set_size (selectedRows (fst (dispatch sampleProps initialState (RowClick 1))))
     <= List.length
          (sortedData sampleProps
             (fst (dispatch sampleProps initialState (RowClick 1)))).
Proof.
  split; [split; [exact insertion_sort_conforms | exact sample_row_click_reachable]|].
  exact (proj2 (proj2 (selection_within_view insertion_sort_conforms
                         sample_row_click_reachable))).
Defined.

Lemma summary_is_sound_witness :
  (sort_conforms (@Array_sort exampleHost)
   /\ reachable selectableOptions sampleProps
        (fst (dispatch sampleProps initialState (RowClick 1))))
  /\ selectAllState sampleProps
       (fst (dispatch sampleProps initialState (RowClick 1))) <> SelAll.
Proof.
  split; [split; [exact insertion_sort_conforms | exact sample_row_click_reachable]|].
  intros Hall.
  destruct (summary_is_sound (H := exampleHost) insertion_sort_conforms
              sample_row_click_reachable) as [[Hsound _] _].
  apply Hsound in Hall.
  destruct Hall as [_ Hall]. specialize (Hall 0). simpl in Hall.
  assert (0 < 2) as Hlt by lia. specialize (Hall Hlt). discriminate Hall.
Defined.

Lemma panels_witness :
  sort_conforms (@Array_sort exampleHost)
  /\ renderTable loadingOptions sampleProps initialState = LoadingView.
Proof.
  split; [exact insertion_sort_conforms|].
  apply (proj1 (panels (H := exampleHost) loadingOptions sampleProps
                  insertion_sort_conforms initialState)).
  reflexivity.
Defined.

Lemma table_rectangular_witness :
  exists head body,
    renderTable selectableOptions sampleProps initialState = TableView head body
    /\ List.length body = 2 /\ List.length head = 3.
Proof.
  eexists. eexists. split; [reflexivity|].
  destruct (table_rectangular selectableOptions sampleProps initialState eq_refl)
    as [Hbody [Hhead _]].
  split; [exact Hbody | exact Hhead].
Defined.

Lemma numbers_in_numeric_order_witness :
  (PrimFloat.is_nan 1%float = false /\ PrimFloat.is_nan 2%float = false)
  /\ sign_of (compareValues (VNumber 2) (VNumber 1))
     = CompOpp (sign_of (compareValues (VNumber 1) (VNumber 2))).
Proof.
  split; [split; reflexivity|].
  exact (proj2 (proj2 (proj2
           (numbers_in_numeric_order 1%float 2%float eq_refl eq_refl)))).
Defined.

Lemma nan_breaks_consistency_witness :
  (In [("label", VString "c"); ("score", VNumber nan)] scoreRows
   /\ PrimFloat.is_nan nan = true)
  /\ ~ consistent_comparator (rowComparator "score" asc) scoreRows.
Proof.
  assert (In [("label", VString "c"); ("score", VNumber nan)] scoreRows) as Hin
    by (simpl; tauto).
  split; [split; [exact Hin | reflexivity]|].
  exact (proj2 (nan_breaks_consistency (H := exampleHost) "score" scoreRows _
                  Hin eq_refl eq_refl)).
Defined.

Lemma sample_id_column : number_column "id" [rowB; rowA].
Proof.
  intros row [<- | [<- | []]]; eexists; split; reflexivity.
Qed.

Lemma numeric_column_sorts_witness :
  (sort_conforms (@Array_sort exampleHost) /\ "id" <> ""
   /\ number_column "id" [rowB; rowA])
  /\ Forall2 (tied "id")
       (rev (sortedRows [rowB; rowA] (Some "id") (Some asc)))
       (sortedRows [rowB; rowA] (Some "id") (Some desc)).
Proof.
  assert ("id" <> "") as Hkey by discriminate.
  split; [split; [exact insertion_sort_conforms | split; [exact Hkey | exact sample_id_column]]|].
  exact (proj2 (proj2 (numeric_column_sorts insertion_sort_conforms Hkey
                         sample_id_column))).
Defined.

Lemma sample_name_column : string_column "name" [rowB; rowA].
Proof. intros row [<- | [<- | []]]; eexists; reflexivity. Qed.

Lemma sample_names_collate :
  consistent_comparator (@localeCompare exampleHost)
    (map (fun row => string_of (get row "name")) [rowB; rowA]).
Proof. apply consistent_comparatorb_sound. vm_compute. reflexivity. Qed.

Lemma string_column_consistent_witness :
  (string_column "name" [rowB; rowA]
   /\ consistent_comparator (@localeCompare exampleHost)
        (map (fun row => string_of (get row "name")) [rowB; rowA]))
  /\ consistent_comparator (rowComparator "name" asc) [rowB; rowA].
Proof.
  split; [split; [exact sample_name_column | exact sample_names_collate]|].
  exact (string_column_consistent sample_name_column sample_names_collate).
Defined.

Lemma namelessRow_has_no_name : forall v, ~ In ("name", v) namelessRow.
Proof. intros v [Heq | []]. discriminate Heq. Qed.

Lemma missing_key_first_witness :
  ((forall v, ~ In ("name", v) namelessRow)
   /\ is_nullish (get rowA "name") = false)
  /\ rowComparator "name" asc namelessRow rowA = (-1)%float
  /\ renderCell nameColumn namelessRow = NodeText "".
Proof.
  split; [split; [exact namelessRow_has_no_name | reflexivity]|].
  destruct (missing_key_first "name" namelessRow rowA nameColumn
              namelessRow_has_no_name eq_refl) as [Hfirst [_ [_ [_ Hcell]]]].
  split; [exact Hfirst | exact (Hcell eq_refl eq_refl)].
Defined.

Lemma null_beside_undefined_witness :
  (In nullNameRow [nullNameRow; namelessRow]
   /\ In namelessRow [nullNameRow; namelessRow])
  /\ ~ consistent_comparator (rowComparator "name" asc)
         [nullNameRow; namelessRow].
Proof.
  assert (In nullNameRow [nullNameRow; namelessRow]) as Ha by (simpl; tauto).
  assert (In namelessRow [nullNameRow; namelessRow]) as Hb by (simpl; tauto).
  split; [split; assumption|].
  exact (proj2 (proj2 (null_beside_undefined "name" [nullNameRow; namelessRow]
                         nullNameRow namelessRow Ha Hb eq_refl eq_refl))).
Defined.

Lemma chevrons_follow_clicks_witness :
  (resolves sampleProps "name" nameColumn /\ sortable nameColumn = Some true)
  /\ chevrons (fst (clickHeader sampleProps (stateNONE []) nameColumn)) nameColumn
     = lit true false.
Proof.
  split; [split; reflexivity|].
  assert (key emailColumn <> "name") as Hother by discriminate.
  exact (proj1 (chevrons_follow_clicks (p := sampleProps) (k := "name")
                  (column := nameColumn) emailColumn [] eq_refl eq_refl
                  Hother eq_refl)).
Defined.

Lemma view_rearranges_input_witness :
  sort_conforms (@Array_sort exampleHost)
  /\ List.length (sortedData sampleProps (stateDESC "name" []))
     = List.length (data sampleProps).
Proof.
  split; [exact insertion_sort_conforms|].
  exact (proj1 (proj2 (view_rearranges_input (H := exampleHost) sampleProps
                         (stateDESC "name" []) insertion_sort_conforms))).
Defined.

End MoreScenarios.

End DataTable.

(* ================================================================== *)
(** ** The theme toggle: persistence *)

Module ThemeToggleFacts.
Import ThemeToggle.

Lemma getItem_setItem (store : Storage) (k v : string) :
  getItem (setItem store k v) k = Some v.
Proof.
  induction store as [|[k' v'] rest IH]; simpl.
  - now rewrite String.eqb_refl.
  - destruct (String.eqb k' k) eqn:E; simpl.
    + now rewrite String.eqb_refl.
    + now rewrite E.
Qed.

Lemma getItem_setItem_other (store : Storage) (k v k' : string) :
  k' <> k -> getItem (setItem store k v) k' = getItem store k'.
Proof.
  intros Hne. induction store as [|[k0 v0] rest IH]; simpl.
  - apply String.eqb_neq in Hne. rewrite String.eqb_sym in Hne. now rewrite Hne.
  - destruct (String.eqb k0 k) eqn:E; simpl.
    + apply String.eqb_eq in E. subst k0.
      apply String.eqb_neq in Hne. rewrite String.eqb_sym in Hne.
      now rewrite Hne.
    + destruct (String.eqb k0 k'); [reflexivity | exact IH].
Qed.

Lemma setItem_overwrite (store : Storage) (k v w : string) :
  setItem (setItem store k v) k w = setItem store k w.
Proof.
  induction store as [|[k' v'] rest IH]; simpl.
  - now rewrite String.eqb_refl.
  - destruct (String.eqb k' k) eqn:E; simpl.
    + now rewrite String.eqb_refl.
    + now rewrite E, IH.
Qed.

Lemma In_classList_add (classes : list string) (token c : string) :
  In c (classList_add classes token) <-> c = token \/ In c classes.
Proof.
  unfold classList_add. destruct (existsb (String.eqb token) classes) eqn:E.
  - apply existsb_exists in E. destruct E as [t [Ht Heq]].
    apply String.eqb_eq in Heq. subst t.
    split; [now right | intros [-> | Hc]; assumption].
  - rewrite in_app_iff. simpl. intuition.
Qed.

Lemma In_classList_remove (classes : list string) (token c : string) :
  In c (classList_remove classes token) <-> c <> token /\ In c classes.
Proof.
  unfold classList_remove. rewrite filter_In, negb_true_iff, String.eqb_neq.
  intuition.
Qed.

Lemma classList_add_again (classes : list string) (token : string) :
  classList_add (classList_add classes token) token = classList_add classes token.
Proof.
  unfold classList_add at 1.
  assert (existsb (String.eqb token) (classList_add classes token) = true) as ->.
  { apply existsb_exists. exists token. split; [|apply String.eqb_refl].
    apply In_classList_add. now left. }
  reflexivity.
Qed.

Lemma classList_remove_again (classes : list string) (token : string) :
  classList_remove (classList_remove classes token) token
  = classList_remove classes token.
Proof.
  unfold classList_remove. induction classes as [|c rest IH]; [reflexivity|].
  simpl. destruct (String.eqb token c) eqn:E; simpl; [exact IH|].
  now rewrite E, IH.
Qed.

Lemma applyTheme_again (b : Browser) (isDark : bool) :
  applyTheme (applyTheme b isDark) isDark = applyTheme b isDark.
Proof.
  unfold applyTheme. destruct isDark; simpl.
  - now rewrite setItem_overwrite, classList_add_again.
  - now rewrite setItem_overwrite, classList_remove_again.
Qed.

Lemma initialIsDark_applied (b : Browser) (isDark : bool) :
  hasWindow b = true -> initialIsDark (applyTheme b isDark) = isDark.
Proof.
  intros Hw. unfold initialIsDark, applyTheme.
  destruct isDark; simpl; rewrite Hw, getItem_setItem; reflexivity.
Qed.

(** X20: once the effect has stored a theme, mounting again in that browser
    starts with the same theme whatever the system prefers, and changes
    nothing in the storage or on the root element. *)
Theorem remount_keeps_theme (b : Browser) (isDark : bool)
    (Hbrowser : hasWindow b = true) :
  mount (applyTheme b isDark) = (isDark, applyTheme b isDark).
Proof.
  unfold mount. rewrite (initialIsDark_applied b isDark Hbrowser).
  now rewrite applyTheme_again.
Qed.

(** X21: after the effect the root element carries the class [dark] exactly
    when the theme is dark and every other class as before, and the
    storage holds the theme under ["theme"] and every other key as
    before. *)
Theorem applied_theme (b : Browser) (isDark : bool) :
  (In "dark" (rootClasses (applyTheme b isDark)) <-> isDark = true)
  /\ (forall c, c <> "dark" ->
        (In c (rootClasses (applyTheme b isDark)) <-> In c (rootClasses b)))
  /\ getItem (localStorage (applyTheme b isDark)) "theme"
     = Some (if isDark then "dark" else "light")
  /\ (forall k, k <> "theme" ->
        getItem (localStorage (applyTheme b isDark)) k
        = getItem (localStorage b) k).
Proof.
  unfold applyTheme. destruct isDark; simpl.
  - split; [split; [reflexivity | intros _; apply In_classList_add; now left]|].
    split; [intros c Hc; rewrite In_classList_add; intuition|].
    split; [apply getItem_setItem|].
    intros k Hk. now apply getItem_setItem_other.
  - split.
    { split; [|discriminate]. intros Hin.
      apply In_classList_remove in Hin. destruct Hin as [Hne _]. congruence. }
    split; [intros c Hc; rewrite In_classList_remove; intuition|].
    split; [apply getItem_setItem|].
    intros k Hk. now apply getItem_setItem_other.
Qed.

(** X22: two clicks bring back the theme, the storage as it was after the
    first effect, and the same classes on the root element. *)
Theorem two_clicks_restore (b : Browser) (isDark : bool) :
  let s := (isDark, applyTheme b isDark) in
  fst (click (click s)) = isDark
  /\ localStorage (snd (click (click s))) = localStorage (snd s)
  /\ (forall c, In c (rootClasses (snd (click (click s))))
                <-> In c (rootClasses (snd s))).
Proof.
  cbv zeta. unfold click, toggleTheme. simpl fst. simpl snd.
  rewrite negb_involutive. split; [reflexivity|].
  unfold applyTheme. destruct isDark; simpl.
  - split; [now rewrite !setItem_overwrite|].
    intros c. rewrite !In_classList_add, In_classList_remove, In_classList_add.
    destruct (String.eqb c "dark") eqn:E.
    + apply String.eqb_eq in E. intuition.
    + apply String.eqb_neq in E. intuition.
  - split; [now rewrite !setItem_overwrite|].
    intros c. rewrite !In_classList_remove, In_classList_add, In_classList_remove.
    intuition.
Qed.

Lemma remount_keeps_theme_witness :
  hasWindow sampleBrowser = true
  /\ mount (applyTheme sampleBrowser false) = (false, applyTheme sampleBrowser false).
Proof.
  split; [reflexivity|].
  apply (remount_keeps_theme sampleBrowser false). reflexivity.
Defined.

End ThemeToggleFacts.

(* ================================================================== *)
(** ** The input field: what is shown and what it points to *)

Module InputFieldFacts.
Import InputField.

Lemma append_inv_head (s a b : string) : (s ++ a = s ++ b)%string -> a = b.
Proof.
  induction s as [|c s IH]; simpl; intros Heq; [exact Heq|].
  injection Heq as Heq. now apply IH.
Qed.

Lemma helperId_not_errorId (props : Props) (generatedId : string) :
  helperId props generatedId <> errorId props generatedId.
Proof.
  unfold helperId, errorId. intros Heq. apply append_inv_head in Heq.
  discriminate Heq.
Qed.

(** X23: without an [aria-describedby] from the caller, the input points to
    the line under it exactly as long as there is no error.  With an
    error: beside a helper text it points to the helper's id while the
    line carries the error's id; with the [invalid] flag alone it points to
    the error's id while no line is rendered; only with an error message
    and no helper text does it point to the line. *)
Theorem describedBy_target (props : Props) (generatedId : string)
    (Hnone : truthy (ariaDescribedBy props) = false) :
  (hasError props = false ->
     describedBy props generatedId
     = option_map messageId (message props generatedId))
  /\ (hasError props = true -> truthy (helperText props) = true ->
      describedBy props generatedId = Some (helperId props generatedId)
      /\ option_map messageId (message props generatedId)
         = Some (errorId props generatedId)
      /\ describedBy props generatedId
         <> option_map messageId (message props generatedId))
  /\ (hasError props = true -> truthy (helperText props) = false ->
      truthy (errorMessage props) = false ->
      describedBy props generatedId = Some (errorId props generatedId)
      /\ message props generatedId = None)
  /\ (hasError props = true -> truthy (helperText props) = false ->
      truthy (errorMessage props) = true ->
      describedBy props generatedId = Some (errorId props generatedId)
      /\ option_map messageId (message props generatedId)
         = Some (errorId props generatedId)).
Proof.
  unfold describedBy, message. rewrite Hnone.
  split; [|split; [|split]].
  - intros Herr. rewrite Herr.
    assert (truthy (errorMessage props) = false) as ->.
    { unfold hasError in Herr. now apply orb_false_iff in Herr. }
    destruct (truthy (helperText props)); reflexivity.
  - intros Herr Hhelp. rewrite Herr, Hhelp. simpl.
    split; [reflexivity|]. split; [reflexivity|].
    intros Heq. injection Heq as Heq. now apply helperId_not_errorId in Heq.
  - intros Herr Hhelp Hmsg. rewrite Herr, Hhelp, Hmsg. split; reflexivity.
  - intros Herr Hhelp Hmsg. rewrite Herr, Hhelp, Hmsg. split; reflexivity.
Qed.

(** X24: the container at the right end of the input is rendered exactly when
    it has something in it, and while loading it holds the spinner alone:
    the clear button, the password toggle and the end icon are hidden. *)
Theorem end_container (props : Props) (showPassword : bool) :
  (endContainerShown props = true <-> endControls props showPassword <> [])
  /\ (loading props = true -> endControls props showPassword = [Spinner]).
Proof.
  unfold endContainerShown, endControls.
  destruct (loading props), (showClearButton props), (truthy (value props)),
    (isPassword props), (showPasswordToggle props), (endIcon props);
    simpl; split; try (split; [discriminate | reflexivity]);
    try (split; [intros _; discriminate | reflexivity]);
    try (split; [discriminate | congruence]);
    try reflexivity; try discriminate.
Qed.

(** X25: only a password field changes type: it is shown as text exactly while
    [showPassword] is set, two toggles bring it back, and the toggle
    button, when rendered, offers to hide exactly when the text is
    visible. *)
Theorem password_reveal (props : Props) (showPassword : bool) :
  (isPassword props = false -> inputType props showPassword = type props)
  /\ (isPassword props = true ->
      (inputType props showPassword = text <-> showPassword = true)
      /\ (inputType props showPassword = password <-> showPassword = false))
  /\ inputType props
       (togglePasswordVisibility (togglePasswordVisibility showPassword))
     = inputType props showPassword
  /\ (forall inert buttonLabel,
        In (PasswordToggle inert buttonLabel) (endControls props showPassword) ->
        (buttonLabel = "Hide password" <-> inputType props showPassword = text)).
Proof.
  unfold inputType, togglePasswordVisibility. rewrite negb_involutive.
  split; [intros ->; reflexivity|].
  split.
  { intros Hp. rewrite Hp. unfold isPassword in Hp.
    destruct (type props); try discriminate.
    destruct showPassword; simpl; split; split; congruence. }
  split; [reflexivity|].
  intros inert buttonLabel Hin. unfold endControls in Hin.
  rewrite !in_app_iff in Hin.
  destruct Hin as [Hin | [Hin | [Hin | Hin]]].
  - destruct (loading props); [destruct Hin as [Hin | []]; discriminate | destruct Hin].
  - destruct (_ && _); [destruct Hin as [Hin | []]; discriminate | destruct Hin].
  - destruct (loading props); simpl in Hin; [destruct Hin|].
    destruct (isPassword props) eqn:Hp; simpl in Hin; [|destruct Hin].
    destruct (showPasswordToggle props); simpl in Hin; [|destruct Hin].
    destruct Hin as [Hin | []]. injection Hin as _ <-.
    unfold isPassword in Hp. destruct (type props); try discriminate.
    destruct showPassword; simpl; split; congruence.
  - destruct (_ && _); [destruct Hin as [Hin | []]; discriminate | destruct Hin].
Qed.

Lemma describedBy_target_witness :
  truthy (ariaDescribedBy sampleField) = false
  /\ describedBy sampleField ":r0:" = Some ":r0:-helper"
  /\ option_map messageId (message sampleField ":r0:") = Some ":r0:-error".
Proof.
  split; [reflexivity|].
  destruct (describedBy_target sampleField ":r0:" eq_refl)
    as [_ [Hboth _]].
  destruct (Hboth eq_refl eq_refl) as [Hd [Hm _]]. split; assumption.
Defined.

Lemma password_reveal_witness :
  inputType sampleField true = text /\ inputType sampleField false = password.
Proof.
  split.
  - apply (proj1 (proj2 (password_reveal sampleField true)) eq_refl). reflexivity.
  - apply (proj1 (proj2 (password_reveal sampleField false)) eq_refl). reflexivity.
Defined.

Lemma end_container_witness :
  endControls {| value := Some "x"; onChange := true; label := None;
                 helperText := None; errorMessage := None; disabled := false;
                 invalid := false; loading := true; variant := outlined;
                 size := md; type := password; showClearButton := true;
                 showPasswordToggle := true; id := None; onClear := false;
                 startIcon := false; endIcon := true;
                 ariaDescribedBy := None |} false
  = [Spinner].
Proof. apply end_container. reflexivity. Defined.

End InputFieldFacts.
